(** * VirtualizedList: scroll animation and offset tracking

    A shallow embedding of [src/components/VirtualizedList/VirtualizedList.jsx]:
    the animation record kept in [animationDataRef], the scroll callback, the
    frame callback handed to [requestAnimationFrame], the guard of
    [startScrollAnimation] and the [scrollToId] effect.

    JavaScript numbers are modelled as exact rationals extended with
    [Infinity], [-Infinity] and [NaN]; rounding, overflow and the sign of zero
    are idealised away (the zero of the model stands for [+0]), the special
    values produced by division by zero and by arithmetic on [undefined] are
    kept. Statements about the offsets handed to the list are kept to what
    does not depend on rounding: which expression is evaluated, comparisons
    and clamps, and values reached without an inexact operation. *)

From Stdlib Require Import ZArith QArith Qminmax Qround Lia Lqa Bool List.
From stdpp Require Import base option list gmap strings pretty.

Local Open Scope Q_scope.

(** ** Numbers *)

Inductive num : Type :=
| Fin (q : Q)
| PInf
| NInf
| NaN.

Definition Qltb (x y : Q) : bool := negb (Qle_bool y x).

Module Num.

(** Infinity carrying the sign given by a comparison against zero; the
    undetermined product or quotient is [NaN]. *)
Definition inf_of_sign (c : comparison) : num :=
  match c with
  | Lt => NInf
  | Eq => NaN
  | Gt => PInf
  end.

Definition add (a b : num) : num :=
  match a, b with
  | NaN, _ | _, NaN => NaN
  | Fin x, Fin y => Fin (x + y)
  | PInf, NInf | NInf, PInf => NaN
  | PInf, _ | _, PInf => PInf
  | NInf, _ | _, NInf => NInf
  end.

Definition sub (a b : num) : num :=
  match a, b with
  | NaN, _ | _, NaN => NaN
  | Fin x, Fin y => Fin (x - y)
  | PInf, PInf | NInf, NInf => NaN
  | PInf, _ | _, NInf => PInf
  | NInf, _ | _, PInf => NInf
  end.

Definition mul (a b : num) : num :=
  match a, b with
  | NaN, _ | _, NaN => NaN
  | Fin x, Fin y => Fin (x * y)
  | PInf, Fin y | Fin y, PInf => inf_of_sign (y ?= 0)
  | NInf, Fin y | Fin y, NInf => inf_of_sign (0 ?= y)
  | PInf, PInf | NInf, NInf => PInf
  | PInf, NInf | NInf, PInf => NInf
  end.

Definition div (a b : num) : num :=
  match a, b with
  | NaN, _ | _, NaN => NaN
  | Fin x, Fin y => if Qeq_bool y 0 then inf_of_sign (x ?= 0) else Fin (x / y)
  | Fin _, _ => Fin 0
  | PInf, Fin y => if Qltb y 0 then NInf else PInf
  | NInf, Fin y => if Qltb y 0 then PInf else NInf
  | _, _ => NaN
  end.

(** [a < b]: false as soon as one side is [NaN]. *)
Definition ltb (a b : num) : bool :=
  match a, b with
  | NaN, _ | _, NaN => false
  | Fin x, Fin y => Qltb x y
  | _, NInf => false
  | NInf, _ => true
  | PInf, _ => false
  | Fin _, PInf => true
  end.

(** [a <= b], again false on [NaN]. *)
Definition leb (a b : num) : bool :=
  match a, b with
  | NaN, _ | _, NaN => false
  | Fin x, Fin y => Qle_bool x y
  | NInf, _ => true
  | _, PInf => true
  | _, _ => false
  end.

(** [a === b] on numbers. *)
Definition strict_eq (a b : num) : bool :=
  match a, b with
  | Fin x, Fin y => Qeq_bool x y
  | PInf, PInf | NInf, NInf => true
  | _, _ => false
  end.

(** [Math.min] and [Math.max] of two arguments. *)
Definition Math_min (a b : num) : num :=
  match a, b with
  | NaN, _ | _, NaN => NaN
  | _, _ => if ltb b a then b else a
  end.

Definition Math_max (a b : num) : num :=
  match a, b with
  | NaN, _ | _, NaN => NaN
  | _, _ => if ltb a b then b else a
  end.

(** Equality of numbers up to the representation of the rational. *)
Definition eq (a b : num) : Prop :=
  match a, b with
  | Fin x, Fin y => x == y
  | PInf, PInf | NInf, NInf | NaN, NaN => True
  | _, _ => False
  end.

(** [clamp x lo hi] as the specification writes it. *)
Definition clamp (x lo hi : num) : num := Math_max lo (Math_min hi x).

End Num.

(** A property that is [undefined] or a number. *)
Definition jsval := option num.

Definition ToNumber (v : jsval) : num :=
  match v with
  | Some n => n
  | None => NaN
  end.

Definition ToBoolean (v : jsval) : bool :=
  match v with
  | Some (Fin x) => negb (Qeq_bool x 0)
  | Some NaN => false
  | Some _ => true
  | None => false
  end.

(** ** Easing *)

Definition Qpow5 (x : Q) : Q := x * x * x * x * x.

Definition pow5 (t : num) : num :=
  Num.mul (Num.mul (Num.mul (Num.mul t t) t) t) t.

(** Modelled from the spec: [easeInOutQuint] is imported from
    [./virtualized-list-service], which is not part of the sources. The spec
    gives it as [16 t^5] for [t < 0.5] and [1 - ((-2t+2)^5)/2] otherwise. *)
Definition easeInOutQuint (t : num) : num :=
  if Num.ltb t (Fin (1#2)) then Num.mul (Fin 16) (pow5 t)
  else Num.sub (Fin 1)
         (Num.div (pow5 (Num.add (Num.mul (Fin (-2)) t) (Fin 2))) (Fin 2)).

(** The same function on finite arguments. *)
Definition easeQ (t : Q) : Q :=
  if Qltb t (1#2) then 16 * Qpow5 t
  else 1 - Qpow5 (-2 * t + 2) / 2.

(** ** Data model *)

(** The record behind [animationDataRef], as the first render initialises
    it. [animationStartTime] is a number or [undefined]. *)
Record AnimationData : Type := mkAnimationData {
  scrollOffsetInitial : num;
  scrollOffsetFinal : num;
  animationStartTime : jsval
}.

Definition initialAnimationData : AnimationData :=
  {| scrollOffsetInitial := Fin 0;
     scrollOffsetFinal := Fin 0;
     animationStartTime := Some (Fin 0) |}.

Inductive ScrollDirection : Type := forward | backward.

(** Calls that leave the component: the list's [scrollTo], the [onScroll]
    prop and the [onScrollToFinished] prop. *)
Inductive Event : Type :=
| ScrollTo (offset : num)
| OnScroll (scrollDirection : ScrollDirection) (scrollOffset : num)
    (scrollUpdateWasRequested : bool)
| OnScrollToFinished.

Section Component.

Context {Item : Type}.

(** An entry of the normalized index. *)
Record Entry : Type := mkEntry {
  item : Item;
  index : nat;
  height : num;
  offsetTop : num
}.

(** The props the modelled code reads. [getItemId] and [getItemHeight] are
    functions of the item, as the specification types them; the two
    callbacks are recorded by whether the caller passed one. *)
Record Props : Type := mkProps {
  items : list Item;
  getItemId : Item -> string;
  getItemHeight : Item -> num;
  onScroll : bool;
  scrollToId : option string;
  scrollDuration : num;
  onScrollToFinished : bool
}.

(** What the callbacks of one render close over. *)
Record Render : Type := mkRender {
  props : Props;
  normalizedItems : gmap string Entry;
  maxListOffset : num
}.

(** The refs of one component instance, the frame callbacks waiting in
    [requestAnimationFrame] (each with the render it closes over) and the
    calls made so far. *)
Record Instance : Type := mkInstance {
  animationData : AnimationData;
  scrollTopRef : num;
  listRef : bool;
  rafQueue : list Render;
  trace : list Event
}.

Definition initialInstance : Instance :=
  {| animationData := initialAnimationData;
     scrollTopRef := Fin 0;
     listRef := false;
     rafQueue := [];
     trace := [] |}.

(** *** A state monad with exceptions *)

Definition M (A : Type) : Type := Instance -> option (A * Instance).

Definition ret {A : Type} (a : A) : M A := fun st => Some (a, st).

Definition bind {A B : Type} (m : M A) (k : A -> M B) : M B :=
  fun st =>
    match m st with
    | Some (a, st') => k a st'
    | None => None
    end.

Definition throw {A : Type} : M A := fun _ => None.

Definition get : M Instance := fun st => Some (st, st).

Definition modify (f : Instance -> Instance) : M unit :=
  fun st => Some (tt, f st).

End Component.

Arguments Entry : clear implicits.
Arguments Props : clear implicits.
Arguments Render : clear implicits.
Arguments Instance : clear implicits.
Arguments M : clear implicits.

Declare Scope js_scope.
Delimit Scope js_scope with js.
Notation "'let*' x ':=' m 'in' k" := (bind m (fun x => k))
  (at level 10, x name, m at level 100, k at level 200) : js_scope.
Notation "m ';;' k" := (bind m (fun _ => k))
  (at level 100, k at level 200, right associativity) : js_scope.

Section Callbacks.

Context {Item : Type}.

Local Open Scope js_scope.

Abbreviation M := (M Item).
Abbreviation Render := (Render Item).
Abbreviation Instance := (Instance Item).

Definition getAnimationData : M AnimationData :=
  let* st := get in ret (animationData st).

Definition setAnimationData (f : AnimationData -> AnimationData) : M unit :=
  modify (fun st =>
    {| animationData := f (animationData st);
       scrollTopRef := scrollTopRef st;
       listRef := listRef st;
       rafQueue := rafQueue st;
       trace := trace st |}).

Definition setScrollOffsetInitial (x : num) : M unit :=
  setAnimationData (fun a =>
    {| scrollOffsetInitial := x;
       scrollOffsetFinal := scrollOffsetFinal a;
       animationStartTime := animationStartTime a |}).

Definition setScrollOffsetFinal (x : num) : M unit :=
  setAnimationData (fun a =>
    {| scrollOffsetInitial := scrollOffsetInitial a;
       scrollOffsetFinal := x;
       animationStartTime := animationStartTime a |}).

Definition setAnimationStartTime (v : jsval) : M unit :=
  setAnimationData (fun a =>
    {| scrollOffsetInitial := scrollOffsetInitial a;
       scrollOffsetFinal := scrollOffsetFinal a;
       animationStartTime := v |}).

Definition setScrollTopRef (x : num) : M unit :=
  modify (fun st =>
    {| animationData := animationData st;
       scrollTopRef := x;
       listRef := listRef st;
       rafQueue := rafQueue st;
       trace := trace st |}).

Definition emit (e : Event) : M unit :=
  modify (fun st =>
    {| animationData := animationData st;
       scrollTopRef := scrollTopRef st;
       listRef := listRef st;
       rafQueue := rafQueue st;
       trace := trace st ++ [e] |}).

(** [requestAnimationFrame(cb)]: the callback of render [r] joins the queue. *)
Definition requestAnimationFrame (r : Render) : M unit :=
  modify (fun st =>
    {| animationData := animationData st;
       scrollTopRef := scrollTopRef st;
       listRef := listRef st;
       rafQueue := rafQueue st ++ [r];
       trace := trace st |}).

(** [listRef.current.scrollTo(x)]: a [TypeError] when no list is attached. *)
Definition listRef_scrollTo (x : num) : M unit :=
  let* st := get in
  if listRef st then emit (ScrollTo x) else throw.

Definition setListRef (b : bool) : M unit :=
  modify (fun st =>
    {| animationData := animationData st;
       scrollTopRef := scrollTopRef st;
       listRef := b;
       rafQueue := rafQueue st;
       trace := trace st |}).

Definition setRafQueue (q : list Render) : M unit :=
  modify (fun st =>
    {| animationData := animationData st;
       scrollTopRef := scrollTopRef st;
       listRef := listRef st;
       rafQueue := q;
       trace := trace st |}).

(** *** The list service *)

(** Modelled from the spec: [getNormalizedItems] lives in
    [./virtualized-list-service], which is not part of the sources. The spec
    describes one forward pass with a running offset: the item at position
    [i] gets the offset accumulated before it, then its height is added; a
    later item with the same identifier overwrites the earlier entry. *)
Fixpoint normalizeFrom (getId : Item -> string) (getHeight : Item -> num)
    (i : nat) (offset : num) (l : list Item) (acc : gmap string (Entry Item))
    : gmap string (Entry Item) :=
  match l with
  | [] => acc
  | x :: l' =>
      normalizeFrom getId getHeight (S i) (Num.add offset (getHeight x)) l'
        (<[getId x := mkEntry x i (getHeight x) offset]> acc)
  end.

(** Modelled from the spec: the index of a sequence is the pass above
    started at position 0 with offset 0 and an empty mapping. *)
Definition getNormalizedItems (l : list Item) (getId : Item -> string)
    (getHeight : Item -> num) : gmap string (Entry Item) :=
  normalizeFrom getId getHeight 0 (Fin 0) l ∅.

(** The running offset after the items of [l], starting from [offset]. *)
Definition offsetAfter (getHeight : Item -> num) (offset : num) (l : list Item) : num :=
  foldl (fun o x => Num.add o (getHeight x)) offset l.

(** The entry of greatest [index] among a list of entries. *)
Definition laterEntry (e : Entry Item) (acc : option (Entry Item))
    : option (Entry Item) :=
  match acc with
  | Some e' => if (index e <? index e')%nat then Some e' else Some e
  | None => Some e
  end.

Definition lastEntry (m : gmap string (Entry Item)) : option (Entry Item) :=
  foldr laterEntry None (map_to_list m).*2.

(** Modelled from the spec: the total content height is the [offsetTop] of
    the last item plus its height, and 0 for an empty index. *)
Definition totalContentHeight (m : gmap string (Entry Item)) : num :=
  match lastEntry m with
  | Some e => Num.add (offsetTop e) (height e)
  | None => Fin 0
  end.

(** Modelled from the spec: [getMaxOffset] lives in
    [./virtualized-list-service], which is not part of the sources. The spec
    gives its result as [max(0, totalContentHeight - viewportHeight)]. *)
Definition getMaxOffset (offsetHeight : num) (m : gmap string (Entry Item)) : num :=
  Num.Math_max (Fin 0) (Num.sub (totalContentHeight m) offsetHeight).

(** The two memos of a render. The second memo has [normalizedItems] among
    its dependencies and otherwise only the ref object itself, so its value
    always belongs to the current index, and [offsetHeight] is what
    [offsetHeightRef.current] held when the index last changed, not the
    height of the viewport now. *)
Definition render (p : Props Item) (offsetHeight : num) : Render :=
  let normalizedItems := getNormalizedItems (items p) (getItemId p) (getItemHeight p) in
  {| props := p;
     normalizedItems := normalizedItems;
     maxListOffset := getMaxOffset offsetHeight normalizedItems |}.

(** The first render: [offsetHeightRef] is created holding 0, and the
    sizer's callback stores the height only after the memos have run. *)
Definition firstRender (p : Props Item) : Render := render p (Fin 0).

(** *** The callbacks of [VirtualizedList] *)

Definition onScrollCB (r : Render) (scrollDirection : ScrollDirection)
    (scrollOffset : num) (scrollUpdateWasRequested : bool) : M unit :=
  setScrollTopRef scrollOffset;;
  (if negb scrollUpdateWasRequested
   then setScrollOffsetInitial scrollOffset else ret tt);;
  if onScroll (props r)
  then emit (OnScroll scrollDirection scrollOffset scrollUpdateWasRequested)
  else ret tt.

Definition onAnimationComplete (r : Render) : M unit :=
  if onScrollToFinished (props r) then emit OnScrollToFinished else ret tt.

Definition animateScroll (r : Render) : M unit := requestAnimationFrame r.

(** The offset the frame callback hands to [scrollTo], from the animation
    record and the clock reading [now]. *)
Definition ellapsed (a : AnimationData) (now : Q) : num :=
  Num.sub (Fin now) (ToNumber (animationStartTime a)).

Definition frameOffset (r : Render) (a : AnimationData) (now : Q) : num :=
  let scrollDelta := Num.sub (scrollOffsetFinal a) (scrollOffsetInitial a) in
  let easedTime :=
    easeInOutQuint
      (Num.Math_min (Fin 1) (Num.div (ellapsed a now) (scrollDuration (props r)))) in
  let scrollOffset := Num.add (scrollOffsetInitial a) (Num.mul scrollDelta easedTime) in
  Num.Math_min (maxListOffset r) scrollOffset.

(** The callback passed to [requestAnimationFrame] by [animateScroll];
    [now] is what [performance.now()] returns. *)
Definition frameCallback (r : Render) (now : Q) : M unit :=
  let* a := getAnimationData in
  listRef_scrollTo (frameOffset r a now);;
  if Num.ltb (ellapsed a now) (scrollDuration (props r))
  then animateScroll r
  else
    setAnimationStartTime None;;
    (let* a' := getAnimationData in setScrollOffsetInitial (scrollOffsetFinal a'));;
    onAnimationComplete r.

Definition startScrollAnimation (r : Render) (now : Q) (it : Entry Item) : M unit :=
  let* a := getAnimationData in
  if ToBoolean (animationStartTime a)
     || Num.strict_eq (scrollOffsetFinal a) (offsetTop it)
  then ret tt
  else
    setScrollOffsetFinal (offsetTop it);;
    setAnimationStartTime (Some (Fin now));;
    animateScroll r.

(** Truthiness of the [scrollToId] prop: [undefined] and the empty string are
    falsy. *)
Definition truthyId (v : option string) : bool :=
  match v with
  | Some s => negb (String.eqb s EmptyString)
  | None => false
  end.

(** The effect on [scrollToId]. *)
Definition scrollToEffect (r : Render) (now : Q) : M unit :=
  let* st := get in
  if truthyId (scrollToId (props r)) && listRef st
  then
    match scrollToId (props r) ≫= (fun k => normalizedItems r !! k) with
    | Some it => startScrollAnimation r now it
    | None => ret tt
    end
  else ret tt.

(** *** The instance driven by its environment *)

(** What can happen to an instance: React attaches or detaches the list
    behind [listRef], the list reports a scroll, the [scrollToId] effect of a
    render runs, the browser runs the oldest waiting frame callback. *)
Inductive Input : Type :=
| Attach (attached : bool)
| Scroll (r : Render) (scrollDirection : ScrollDirection) (scrollOffset : num)
    (scrollUpdateWasRequested : bool)
| Effect (r : Render) (now : Q)
| AnimationFrame (now : Q).

Definition step (i : Input) : M unit :=
  match i with
  | Attach b => setListRef b
  | Scroll r d x q => onScrollCB r d x q
  | Effect r now => scrollToEffect r now
  | AnimationFrame now =>
      let* st := get in
      match rafQueue st with
      | [] => ret tt
      | r :: q => setRafQueue q;; frameCallback r now
      end
  end.

(** A run of inputs, up to the first exception: a callback that throws ends
    the run with [None]. *)
Fixpoint run (ins : list Input) : M unit :=
  match ins with
  | [] => ret tt
  | i :: ins' => step i;; run ins'
  end.

End Callbacks.

Arguments Input : clear implicits.

(** ** Specification-side definitions *)

(** Number of calls of the completion callback in a trace. *)
Fixpoint completions (t : list Event) : nat :=
  match t with
  | [] => 0
  | OnScrollToFinished :: t' => S (completions t')
  | _ :: t' => completions t'
  end.

(** The offsets handed to the list's [scrollTo] in a trace. *)
Fixpoint scrollTos (t : list Event) : list num :=
  match t with
  | [] => []
  | ScrollTo x :: t' => x :: scrollTos t'
  | _ :: t' => scrollTos t'
  end.

Section Specification.

Context {Item : Type}.

(** The frame offset as the specification words it: progress clamped to
    [0,1], the interpolated offset clamped to [0, MaxOffset]. *)
Definition specFrameOffset (r : Render Item) (a : AnimationData) (now : Q) : num :=
  let progress :=
    Num.clamp (Num.div (ellapsed a now) (scrollDuration (props r))) (Fin 0) (Fin 1) in
  let interpolated :=
    Num.add (scrollOffsetInitial a)
      (Num.mul (Num.sub (scrollOffsetFinal a) (scrollOffsetInitial a))
         (easeInOutQuint progress)) in
  Num.clamp interpolated (Fin 0) (maxListOffset r).

(** The events a completing frame appends to the trace. *)
Definition completionEvents (r : Render Item) (x : num) : list Event :=
  ScrollTo x :: (if onScrollToFinished (props r) then [OnScrollToFinished] else []).

(** Clock readings are positive: [performance.now()] counts from the time
    origin of the page. *)
Definition clockPositive (i : Input Item) : Prop :=
  match i with
  | Effect _ now | AnimationFrame now => 0 < now
  | _ => True
  end.

(** One frame callback waits exactly while [animationStartTime] is set. *)
Definition oneAnimation (st : Instance Item) : Prop :=
  length (rafQueue st)
  = if ToBoolean (animationStartTime (animationData st)) then 1%nat else 0%nat.

(** The input is a frame that takes the completing branch. *)
Definition completes (i : Input Item) (st : Instance Item) : bool :=
  match i with
  | AnimationFrame now =>
      match rafQueue st with
      | r :: _ =>
          negb (Num.ltb (ellapsed (animationData st) now) (scrollDuration (props r)))
      | [] => false
      end
  | _ => false
  end.

(** No input of the run is a completing frame. *)
Fixpoint noCompletion (ins : list (Input Item)) (st : Instance Item) : Prop :=
  match ins with
  | [] => True
  | i :: ins' =>
      completes i st = false /\
      forall st', step i st = Some (tt, st') -> noCompletion ins' st'
  end.

(** No animation has been started on the instance. *)
Definition neverAnimated (st : Instance Item) : Prop :=
  scrollOffsetFinal (animationData st) = Fin 0 /\
  rafQueue st = [] /\
  scrollTos (trace st) = [].

(** Every effect of the run asks for an item at offset 0, or for none. *)
Definition targetsTop (i : Input Item) : Prop :=
  match i with
  | Effect r _ =>
      forall (k : string) (it : Entry Item),
        scrollToId (props r) = Some k ->
        normalizedItems r !! k = Some it ->
        Num.eq (offsetTop it) (Fin 0)
  | _ => True
  end.

End Specification.

(** [Math.min] and [Math.max] on finite numbers. *)
Definition minQ (a b : Q) : Q := if Qltb b a then b else a.
Definition maxQ (a b : Q) : Q := if Qltb a b then b else a.

(** ** Definitions for whole runs *)

Section Coverage.

Context {Item : Type}.

(** A scroll report that answers the component's own [scrollTo]. *)
Definition programmatic (i : Input Item) : bool :=
  match i with
  | Scroll _ _ _ true => true
  | _ => false
  end.

(** The inputs of a run without those reports. *)
Definition withoutProgrammatic (ins : list (Input Item)) : list (Input Item) :=
  List.filter (fun i => negb (programmatic i)) ins.

(** Two instances that differ at most in [scrollTopRef] and in the calls of
    the [onScroll] prop. *)
Definition agree (st1 st2 : Instance Item) : Prop :=
  animationData st1 = animationData st2 /\
  listRef st1 = listRef st2 /\
  rafQueue st1 = rafQueue st2 /\
  scrollTos (trace st1) = scrollTos (trace st2) /\
  completions (trace st1) = completions (trace st2).

(** The input is an effect that passes every guard and starts an animation. *)
Definition starts (i : Input Item) (st : Instance Item) : bool :=
  match i with
  | Effect r _ =>
      truthyId (scrollToId (props r)) && listRef st &&
      match scrollToId (props r) ≫= (fun k => normalizedItems r !! k) with
      | Some it =>
          negb (ToBoolean (animationStartTime (animationData st))
                || Num.strict_eq (scrollOffsetFinal (animationData st)) (offsetTop it))
      | None => false
      end
  | _ => false
  end.

(** The input is a frame that finds a callback waiting. *)
Definition runsFrame (i : Input Item) (st : Instance Item) : bool :=
  match i with
  | AnimationFrame _ =>
      match rafQueue st with
      | [] => false
      | _ :: _ => true
      end
  | _ => false
  end.

(** How many inputs of a run satisfy [p] in the state they meet. *)
Fixpoint countInputs (p : Input Item -> Instance Item -> bool)
    (ins : list (Input Item)) (st : Instance Item) : nat :=
  match ins with
  | [] => 0
  | i :: ins' =>
      ((if p i st then 1 else 0)
       + match step i st with
         | Some (_, st') => countInputs p ins' st'
         | None => 0
         end)%nat
  end.

(** One input as the browser handles it: a frame callback that throws is
    gone from the queue and has changed nothing else, since
    [listRef.current.scrollTo] is its first effect; later inputs still reach
    the instance. *)
Definition stepAlways (i : Input Item) (st : Instance Item) : Instance Item :=
  match step i st with
  | Some (_, st') => st'
  | None =>
      {| animationData := animationData st;
         scrollTopRef := scrollTopRef st;
         listRef := listRef st;
         rafQueue := tail (rafQueue st);
         trace := trace st |}
  end.

Fixpoint runAlways (ins : list (Input Item)) (st : Instance Item) : Instance Item :=
  match ins with
  | [] => st
  | i :: ins' => runAlways ins' (stepAlways i st)
  end.

(** The input makes a callback throw. *)
Definition throwsAt (i : Input Item) (st : Instance Item) : bool :=
  match step i st with
  | Some _ => false
  | None => true
  end.

(** How many inputs satisfy [p] in the state they meet, along [runAlways]. *)
Fixpoint countAlways (p : Input Item -> Instance Item -> bool)
    (ins : list (Input Item)) (st : Instance Item) : nat :=
  match ins with
  | [] => 0
  | i :: ins' => ((if p i st then 1 else 0) + countAlways p ins' (stepAlways i st))%nat
  end.

(** The render of an effect passes an [onScrollToFinished] callback. *)
Definition notifies (i : Input Item) : Prop :=
  match i with
  | Effect r _ => onScrollToFinished (props r) = true
  | _ => True
  end.

(** The input detaches the list from [listRef]. *)
Definition detaches (i : Input Item) : bool :=
  match i with
  | Attach false => true
  | _ => false
  end.

(** Every effect asks for an item whose offset is [===] to [t], or for none. *)
Definition targets (t : num) (i : Input Item) : Prop :=
  match i with
  | Effect r _ =>
      forall (k : string) (it : Entry Item),
        scrollToId (props r) = Some k ->
        normalizedItems r !! k = Some it ->
        Num.strict_eq t (offsetTop it) = true
  | _ => True
  end.

(** The instance a run ends in (the instance itself if the run throws). *)
Definition finalOf (ins : list (Input Item)) (st : Instance Item) : Instance Item :=
  match run ins st with
  | Some (_, st') => st'
  | None => st
  end.

(** A frame callback waits only while a list is attached. *)
Definition attachedWhileWaiting (st : Instance Item) : Prop :=
  rafQueue st <> [] -> listRef st = true.

(** The instance right after [startScrollAnimation] passed its guard. *)
Definition startedInstance (r : Render Item) (now : Q) (it : Entry Item)
    (st : Instance Item) : Instance Item :=
  {| animationData :=
       {| scrollOffsetInitial := scrollOffsetInitial (animationData st);
          scrollOffsetFinal := offsetTop it;
          animationStartTime := Some (Fin now) |};
     scrollTopRef := scrollTopRef st;
     listRef := listRef st;
     rafQueue := rafQueue st ++ [r];
     trace := trace st |}.

End Coverage.

(** ** The story helpers

    [generateItems] of the stories: a loop that pushes [itemsCount] items
    with the given height and width, numbered from 0. *)

Module Story.

Record Item : Type := mkItem {
  value : string;
  height : num;
  width : num;
  id : string
}.

(** The item pushed at counter [i]: [{ value: `Item ${i}`, height, width,
    id: i.toString() }]. *)
Definition newItem (height width : num) (i : nat) : Item :=
  {| value := "Item " +:+ pretty i;
     height := height;
     width := width;
     id := pretty i |}.

(** The [for] loop from counter [i] on. [fuel] bounds the number of
    iterations; the loop that has not left by then yields [None]. *)
Fixpoint loop (fuel : nat) (height width itemsCount : num) (i : nat)
    (items : list Item) : option (list Item) :=
  if Num.ltb (Fin (inject_Z (Z.of_nat i))) itemsCount then
    match fuel with
    | O => None
    | S fuel' =>
        loop fuel' height width itemsCount (S i) (items ++ [newItem height width i])
    end
  else Some items.

(** [height] and [width] default to 30 and 100 when [undefined]. *)
Definition generateItems (fuel : nat) (height width : option num) (itemsCount : num)
    : option (list Item) :=
  loop fuel (default (Fin 30) height) (default (Fin 100) width) itemsCount 0 [].

(** The number of iterations for a finite [itemsCount]. *)
Definition iterations (q : Q) : nat := Z.to_nat (Qceiling q).

End Story.

(** ** A worked instance

    Five items of heights 20, 30, 40, 10 and 25 in a viewport of height 60,
    with a request to scroll to the fourth. *)

Definition exampleItems : list (string * Q) :=
  [("a", 20); ("b", 30); ("c", 40); ("d", 10); ("e", 25)]%string.

Definition exampleProps (target : string) (duration : Q) : Props (string * Q) :=
  {| items := exampleItems;
     getItemId := fst;
     getItemHeight := fun x => Fin (snd x);
     onScroll := false;
     scrollToId := Some target;
     scrollDuration := Fin duration;
     onScrollToFinished := true |}.

Definition exampleRenderFor (target : string) (duration : Q) : Render (string * Q) :=
  render (exampleProps target duration) (Fin 60).

Definition exampleRender (duration : Q) : Render (string * Q) :=
  exampleRenderFor "d" duration.

(** The fresh instance once the list is attached. *)
Definition exampleAttached : Instance (string * Q) :=
  {| animationData := initialAnimationData;
     scrollTopRef := Fin 0;
     listRef := true;
     rafQueue := [];
     trace := [] |}.

(** The instance once the list is attached and the effect has run at clock
    reading 1000. *)
Definition exampleInFlight (duration : Q) : Instance (string * Q) :=
  {| animationData :=
       {| scrollOffsetInitial := Fin 0;
          scrollOffsetFinal := Fin 90;
          animationStartTime := Some (Fin 1000) |};
     scrollTopRef := Fin 0;
     listRef := true;
     rafQueue := [exampleRender duration];
     trace := [] |}.

(** The instance in flight after the frame at clock reading 1100. *)
Definition exampleAfterFrame : Instance (string * Q) :=
  match run [AnimationFrame 1100] (exampleInFlight 200) with
  | Some (_, st) => st
  | None => exampleInFlight 200
  end.

(** An index with a single entry. *)
Definition exampleEntry : Entry unit :=
  {| item := tt; index := 0; height := Fin 20; offsetTop := Fin 0 |}.

Ltac halves := unfold Qdiv; change (/ 2) with (1#2).

(** Unfolds the monadic plumbing of the callbacks. *)
Ltac run_monad :=
  cbv [frameCallback scrollToEffect startScrollAnimation onScrollCB
       onAnimationComplete animateScroll requestAnimationFrame listRef_scrollTo
       getAnimationData setAnimationData setScrollOffsetInitial
       setScrollOffsetFinal setAnimationStartTime setScrollTopRef setListRef
       setRafQueue emit modify get bind ret throw step];
  cbn [animationData scrollTopRef listRef rafQueue trace
       scrollOffsetInitial scrollOffsetFinal animationStartTime].

(** * Properties *)

(** ** Arithmetic facts *)

Lemma Qltb_true (x y : Q) : Qltb x y = true <-> x < y.
Proof.
  unfold Qltb. rewrite negb_true_iff, <- not_true_iff_false, Qle_bool_iff.
  split; [apply Qnot_le_lt | apply Qlt_not_le].
Qed.

Lemma Qltb_false (x y : Q) : Qltb x y = false <-> y <= x.
Proof.
  unfold Qltb. rewrite negb_false_iff. apply Qle_bool_iff.
Qed.

Lemma Qpow5_nonneg (a : Q) : 0 <= a -> 0 <= Qpow5 a.
Proof.
  intros Ha. unfold Qpow5.
  repeat apply Qmult_le_0_compat; assumption.
Qed.

Lemma Qmult_le_mono (a b c d : Q) :
  0 <= a -> a <= b -> 0 <= c -> c <= d -> a * c <= b * d.
Proof. intros. nra. Qed.

Lemma Qpow5_mono (a b : Q) : 0 <= a -> a <= b -> Qpow5 a <= Qpow5 b.
Proof.
  intros Ha Hab. unfold Qpow5.
  assert (Hb : 0 <= b) by lra.
  repeat (apply Qmult_le_mono; try assumption);
    repeat apply Qmult_le_0_compat; assumption.
Qed.

Lemma Qpow5_le_1 (a : Q) : 0 <= a -> a <= 1 -> Qpow5 a <= 1.
Proof.
  intros H0 H1. pose proof (Qpow5_mono a 1 H0 H1) as Hm.
  assert (H5 : Qpow5 1 == 1) by reflexivity. lra.
Qed.

(** ** The easing function *)

Lemma easeInOutQuint_Fin (t : Q) : easeInOutQuint (Fin t) = Fin (easeQ t).
Proof.
  unfold easeInOutQuint, easeQ; simpl.
  destruct (Qltb t (1 # 2)); reflexivity.
Qed.

Lemma easeQ_low (t : Q) : t < 1#2 -> easeQ t = 16 * Qpow5 t.
Proof.
  intros H. unfold easeQ. apply Qltb_true in H. rewrite H. reflexivity.
Qed.

Lemma easeQ_high (t : Q) : (1#2) <= t -> easeQ t = 1 - Qpow5 (-2 * t + 2) / 2.
Proof.
  intros H. unfold easeQ. apply Qltb_false in H. rewrite H. reflexivity.
Qed.

Lemma easeQ_0 : easeQ 0 == 0.
Proof. reflexivity. Qed.

Lemma easeQ_half : easeQ (1#2) == 1#2.
Proof. reflexivity. Qed.

Lemma easeQ_1 : easeQ 1 == 1.
Proof. reflexivity. Qed.

Lemma easeQ_low_bounds (t : Q) :
  0 <= t -> t < 1#2 -> 0 <= easeQ t /\ easeQ t <= 1#2.
Proof.
  intros H0 H1. rewrite (easeQ_low t H1).
  pose proof (Qpow5_nonneg t H0) as Hp.
  assert (Hq : Qpow5 t <= Qpow5 (1#2)) by (apply Qpow5_mono; lra).
  assert (Hh : Qpow5 (1#2) == 1#32) by reflexivity.
  split; lra.
Qed.

Lemma easeQ_high_bounds (t : Q) :
  (1#2) <= t -> t <= 1 -> (1#2) <= easeQ t /\ easeQ t <= 1.
Proof.
  intros H0 H1. rewrite (easeQ_high t H0).
  assert (Hu0 : 0 <= -2 * t + 2) by lra.
  assert (Hu1 : -2 * t + 2 <= 1) by lra.
  pose proof (Qpow5_nonneg _ Hu0) as Hp.
  pose proof (Qpow5_le_1 _ Hu0 Hu1) as Hq.
  halves. split; lra.
Qed.

Lemma easeQ_range (t : Q) : 0 <= t -> t <= 1 -> 0 <= easeQ t /\ easeQ t <= 1.
Proof.
  intros H0 H1. destruct (Qlt_le_dec t (1#2)) as [Hlt | Hge].
  - destruct (easeQ_low_bounds t H0 Hlt). split; lra.
  - destruct (easeQ_high_bounds t Hge H1). split; lra.
Qed.

Lemma easeQ_mono (s t : Q) : 0 <= s -> s <= t -> t <= 1 -> easeQ s <= easeQ t.
Proof.
  intros H0 Hst H1.
  destruct (Qlt_le_dec t (1#2)) as [Ht | Ht].
  - assert (Hs : s < 1#2) by lra.
    rewrite (easeQ_low s Hs), (easeQ_low t Ht).
    pose proof (Qpow5_mono s t H0 Hst). lra.
  - destruct (Qlt_le_dec s (1#2)) as [Hs | Hs].
    + destruct (easeQ_low_bounds s H0 Hs).
      destruct (easeQ_high_bounds t Ht H1). lra.
    + rewrite (easeQ_high s Hs), (easeQ_high t Ht).
      assert (Hm : Qpow5 (-2 * t + 2) <= Qpow5 (-2 * s + 2))
        by (apply Qpow5_mono; lra).
      halves. lra.
Qed.

Lemma Qpow5_power (x : Q) : Qpow5 x == x ^ 5.
Proof. unfold Qpow5. simpl. ring. Qed.

Lemma leb_Fin (x y : Q) : Num.leb (Fin x) (Fin y) = true <-> x <= y.
Proof. simpl. apply Qle_bool_iff. Qed.

(** C7. The easing function is [16 t^5] below one half and
    [1 - ((-2t+2)^5)/2] from one half on; it maps 0, 1/2 and 1 to themselves,
    maps [0,1] into [0,1] and is non-decreasing on [0,1]. *)
Theorem easeInOutQuint_shape (s t : Q) :
  0 <= s -> s <= t -> t <= 1 ->
  (t < 1#2 -> Num.eq (easeInOutQuint (Fin t)) (Fin (16 * t ^ 5))) /\
  ((1#2) <= t -> Num.eq (easeInOutQuint (Fin t)) (Fin (1 - ((-2 * t + 2) ^ 5) / 2))) /\
  Num.eq (easeInOutQuint (Fin 0)) (Fin 0) /\
  Num.eq (easeInOutQuint (Fin (1#2))) (Fin (1#2)) /\
  Num.eq (easeInOutQuint (Fin 1)) (Fin 1) /\
  Num.leb (Fin 0) (easeInOutQuint (Fin t)) = true /\
  Num.leb (easeInOutQuint (Fin t)) (Fin 1) = true /\
  Num.leb (easeInOutQuint (Fin s)) (easeInOutQuint (Fin t)) = true.
Proof.
  intros H0 Hst H1. rewrite !easeInOutQuint_Fin.
  assert (Ht0 : 0 <= t) by lra.
  destruct (easeQ_range t Ht0 H1) as [Hlo Hhi].
  repeat split.
  - intros Hlt. simpl. rewrite (easeQ_low t Hlt), Qpow5_power. reflexivity.
  - intros Hge. simpl. rewrite (easeQ_high t Hge), Qpow5_power. reflexivity.
  - apply leb_Fin, Hlo.
  - apply leb_Fin, Hhi.
  - apply leb_Fin, easeQ_mono; assumption.
Qed.

Lemma easeInOutQuint_shape_witness :
  Num.leb (easeInOutQuint (Fin (1#4))) (easeInOutQuint (Fin (3#4))) = true.
Proof.
  apply (easeInOutQuint_shape (1#4) (3#4)); unfold Qle; simpl; lia.
Defined.

(** ** The normalized index *)

Section Normalizer.

Context {Item : Type}.
Variable getId : Item -> string.
Variable getHeight : Item -> num.

Lemma normalizeFrom_lookup (l : list Item) :
  forall (i : nat) (offset : num) (acc : gmap string (Entry Item))
         (k : string) (e : Entry Item),
    NoDup (getId <$> l) ->
    normalizeFrom getId getHeight i offset l acc !! k = Some e <->
    (exists (j : nat) (x : Item),
        l !! j = Some x /\ getId x = k /\
        e = mkEntry x (i + j) (getHeight x) (offsetAfter getHeight offset (take j l)))
    \/ ((k ∉ getId <$> l) /\ acc !! k = Some e).
Proof.
  induction l as [| x l IH]; intros i offset acc k e Hnd; simpl.
  - split.
    + intros H. right. split; [apply not_elem_of_nil | exact H].
    + intros [(j & x & Hj & _) | [_ H]]; [discriminate | exact H].
  - rewrite fmap_cons in Hnd. apply NoDup_cons in Hnd as [Hx Hnd].
    rewrite (IH (S i) _ _ k e Hnd). split.
    + intros [(j & y & Hj & Hk & He) | [Hk Hacc]].
      * left. exists (S j), y. repeat split; try assumption.
        rewrite He. f_equal. lia.
      * destruct (decide (getId x = k)) as [Heq | Hne].
        -- subst k. rewrite lookup_insert_eq in Hacc. injection Hacc as <-.
           left. exists 0%nat, x. repeat split. f_equal. lia.
        -- rewrite lookup_insert_ne in Hacc by assumption.
           right. split; [| assumption].
           apply not_elem_of_cons. split; [congruence | assumption].
    + intros [(j & y & Hj & Hk & He) | [Hk Hacc]].
      * destruct j as [| j]; simpl in Hj.
        -- injection Hj as <-. right. subst k. split; [assumption |].
           rewrite lookup_insert_eq, He. do 2 f_equal. lia.
        -- left. exists j, y. repeat split; try assumption.
           rewrite He. f_equal. lia.
      * apply not_elem_of_cons in Hk as [Hne Hk]. right. split; [assumption |].
        rewrite lookup_insert_ne by congruence. assumption.
Qed.

Lemma normalizeFrom_size (l : list Item) :
  forall (i : nat) (offset : num) (acc : gmap string (Entry Item)),
    NoDup (getId <$> l) ->
    (forall x, x ∈ l -> acc !! getId x = None) ->
    size (normalizeFrom getId getHeight i offset l acc) = (size acc + length l)%nat.
Proof.
  induction l as [| x l IH]; intros i offset acc Hnd Hfresh; simpl.
  - lia.
  - rewrite fmap_cons in Hnd. apply NoDup_cons in Hnd as [Hx Hnd].
    rewrite IH; [| assumption |].
    + rewrite map_size_insert_None by (apply Hfresh; left). lia.
    + intros y Hy. rewrite lookup_insert_ne; [apply Hfresh; right; exact Hy |].
      intros Heq. apply Hx. rewrite Heq. apply list_elem_of_fmap_2, Hy.
Qed.

(** The entry of the item at position [j]. *)
Lemma getNormalizedItems_at (l : list Item) (j : nat) (x : Item) :
  NoDup (getId <$> l) ->
  l !! j = Some x ->
  getNormalizedItems l getId getHeight !! getId x
  = Some (mkEntry x j (getHeight x) (offsetAfter getHeight (Fin 0) (take j l))).
Proof.
  intros Hnd Hj. unfold getNormalizedItems.
  apply normalizeFrom_lookup; [assumption |].
  left. exists j, x. repeat split. assumption.
Qed.

(** Every entry of the index is the entry of some position. *)
Lemma getNormalizedItems_inv (l : list Item) (k : string) (e : Entry Item) :
  NoDup (getId <$> l) ->
  getNormalizedItems l getId getHeight !! k = Some e ->
  exists (j : nat) (x : Item),
    l !! j = Some x /\ getId x = k /\
    e = mkEntry x j (getHeight x) (offsetAfter getHeight (Fin 0) (take j l)).
Proof.
  intros Hnd H. unfold getNormalizedItems in H.
  apply normalizeFrom_lookup in H; [| assumption].
  destruct H as [H | [_ H]]; [exact H |].
  rewrite lookup_empty in H. discriminate.
Qed.

Lemma offsetAfter_snoc (offset : num) (l : list Item) (x : Item) :
  offsetAfter getHeight offset (l ++ [x]) = Num.add (offsetAfter getHeight offset l) (getHeight x).
Proof. unfold offsetAfter. rewrite foldl_app. reflexivity. Qed.

(** C5. For items with pairwise distinct identifiers the index has one entry
    per item; the entry of the item at position [i] records that item, [i]
    and its height; its [offsetTop] is 0 at position 0 and, at position
    [i > 0], the [offsetTop] of the entry at [i-1] plus that entry's height. *)
Theorem getNormalizedItems_offsets (l : list Item) :
  NoDup (getId <$> l) ->
  size (getNormalizedItems l getId getHeight) = length l /\
  forall (i : nat) (x : Item),
    l !! i = Some x ->
    exists e : Entry Item,
      getNormalizedItems l getId getHeight !! getId x = Some e /\
      item e = x /\ index e = i /\ height e = getHeight x /\
      match i with
      | O => offsetTop e = Fin 0
      | S j =>
          exists (y : Item) (e' : Entry Item),
            l !! j = Some y /\
            getNormalizedItems l getId getHeight !! getId y = Some e' /\
            offsetTop e = Num.add (offsetTop e') (height e')
      end.
Proof.
  intros Hnd. split.
  - unfold getNormalizedItems. rewrite normalizeFrom_size; try assumption.
    + rewrite map_size_empty. reflexivity.
    + intros x _. apply lookup_empty.
  - intros i x Hi. eexists. split; [apply getNormalizedItems_at; eassumption |].
    simpl. repeat split. destruct i as [| j]; [reflexivity |].
    destruct (lookup_lt_is_Some_2 l j) as [y Hy].
    { apply lookup_lt_Some in Hi. lia. }
    exists y. eexists. split; [exact Hy |].
    split; [exact (getNormalizedItems_at l j y Hnd Hy) |].
    simpl. rewrite (take_S_r l j y Hy). apply offsetAfter_snoc.
Qed.

End Normalizer.

(** ** The maximal offset *)

Section MaxOffset.

Context {Item : Type}.

Lemma foldr_laterEntry_elem (l : list (Entry Item)) (e : Entry Item) :
  foldr laterEntry None l = Some e -> e ∈ l.
Proof.
  revert e. induction l as [| x l IH]; intros e; simpl; [discriminate |].
  unfold laterEntry at 1. destruct (foldr laterEntry None l) as [e' |].
  - destruct (index x <? index e')%nat; intros [= <-].
    + right. apply IH. reflexivity.
    + left.
  - intros [= <-]. left.
Qed.

Lemma foldr_laterEntry_greatest (l : list (Entry Item)) (e : Entry Item) :
  (forall x, x ∈ l -> x = e \/ (index x < index e)%nat) ->
  e ∈ l ->
  foldr laterEntry None l = Some e.
Proof.
  induction l as [| x l IH]; intros Hall He; simpl.
  - apply elem_of_nil in He. contradiction.
  - assert (Hx : x = e \/ (index x < index e)%nat) by (apply Hall; left).
    assert (Hl : forall y, y ∈ l -> y = e \/ (index y < index e)%nat)
      by (intros y Hy; apply Hall; right; exact Hy).
    destruct (foldr laterEntry None l) as [e' |] eqn:Hf; simpl.
    + pose proof (foldr_laterEntry_elem l e' Hf) as He'.
      destruct (Hl e' He') as [-> | Hlt].
      * destruct Hx as [-> | Hx].
        -- rewrite Nat.ltb_irrefl. reflexivity.
        -- apply Nat.ltb_lt in Hx. rewrite Hx. reflexivity.
      * destruct Hx as [-> | Hx].
        -- destruct (Nat.ltb_spec (index e) (index e')); [lia | reflexivity].
        -- apply elem_of_cons in He as [-> | He]; [lia |].
           pose proof (IH Hl He) as Heq. injection Heq as ->. lia.
    + destruct Hx as [-> | Hx]; [reflexivity |].
      apply elem_of_cons in He as [-> | He]; [lia |].
      pose proof (IH Hl He) as Heq. discriminate.
Qed.

Lemma lastEntry_empty : lastEntry (∅ : gmap string (Entry Item)) = None.
Proof. unfold lastEntry. rewrite map_to_list_empty. reflexivity. Qed.

(** An entry whose index exceeds that of every other entry is the last one. *)
Lemma lastEntry_greatest (m : gmap string (Entry Item)) (k : string) (e : Entry Item) :
  m !! k = Some e ->
  (forall k' e', m !! k' = Some e' -> k' <> k -> (index e' < index e)%nat) ->
  lastEntry m = Some e.
Proof.
  intros Hk Hlt. unfold lastEntry. apply foldr_laterEntry_greatest.
  - intros x Hx. apply list_elem_of_fmap in Hx as ([k' x'] & -> & Hin).
    apply elem_of_map_to_list in Hin. simpl.
    destruct (decide (k' = k)) as [-> | Hne].
    + left. congruence.
    + right. apply (Hlt k' x' Hin Hne).
  - apply list_elem_of_fmap. exists (k, e). split; [reflexivity |].
    apply elem_of_map_to_list, Hk.
Qed.

Lemma Math_max_0_nonneg (y : num) : Num.ltb (Num.Math_max (Fin 0) y) (Fin 0) = false.
Proof.
  destruct y as [q | | |]; simpl; try reflexivity.
  destruct (Qltb 0 q) eqn:Hq; simpl.
  - apply Qltb_true in Hq. apply Qltb_false. lra.
  - reflexivity.
Qed.

(** The content height of a freshly normalized sequence is the sum of its
    heights. *)
Lemma totalContentHeight_normalized (getId : Item -> string)
    (getHeight : Item -> num) (l : list Item) :
  NoDup (getId <$> l) ->
  totalContentHeight (getNormalizedItems l getId getHeight)
  = offsetAfter getHeight (Fin 0) l.
Proof.
  intros Hnd. unfold totalContentHeight.
  induction l as [| x l' _] using rev_ind.
  - unfold getNormalizedItems; simpl. rewrite lastEntry_empty. reflexivity.
  - assert (Hx : (l' ++ [x]) !! length l' = Some x) by apply list_lookup_middle, eq_refl.
    rewrite (lastEntry_greatest _ (getId x)
               (mkEntry x (length l') (getHeight x)
                  (offsetAfter getHeight (Fin 0) (take (length l') (l' ++ [x]))))).
    + simpl. rewrite take_app_length. symmetry. apply offsetAfter_snoc.
    + apply getNormalizedItems_at; assumption.
    + intros k' e' He' Hne. simpl.
      apply getNormalizedItems_inv in He' as (j & y & Hj & Hid & ->); [| assumption].
      simpl. pose proof (lookup_lt_Some _ _ _ Hj) as Hlen.
      rewrite List.length_app in Hlen. simpl in Hlen.
      destruct (decide (j = length l')) as [-> | Hj']; [| lia].
      rewrite Hx in Hj. injection Hj as <-. congruence.
Qed.

(** C6. The maximal offset is [max(0, totalContentHeight - viewportHeight)],
    where the content height is 0 for an empty index and otherwise the
    [offsetTop] of the last entry plus its height (for the index of a
    sequence with distinct identifiers: the sum of the heights); it is never
    below 0. *)
Theorem getMaxOffset_spec (offsetHeight : num) (m : gmap string (Entry Item)) :
  getMaxOffset offsetHeight m
  = Num.Math_max (Fin 0) (Num.sub (totalContentHeight m) offsetHeight) /\
  (m = ∅ -> totalContentHeight m = Fin 0) /\
  (forall (k : string) (e : Entry Item),
      m !! k = Some e ->
      (forall k' e', m !! k' = Some e' -> k' <> k -> (index e' < index e)%nat) ->
      totalContentHeight m = Num.add (offsetTop e) (height e)) /\
  (forall (getId : Item -> string) (getHeight : Item -> num) (l : list Item),
      NoDup (getId <$> l) ->
      m = getNormalizedItems l getId getHeight ->
      totalContentHeight m = offsetAfter getHeight (Fin 0) l) /\
  Num.ltb (getMaxOffset offsetHeight m) (Fin 0) = false.
Proof.
  split; [reflexivity |]. split; [| split; [| split]].
  - intros ->. unfold totalContentHeight. rewrite lastEntry_empty. reflexivity.
  - intros k e Hk Hlt. unfold totalContentHeight.
    rewrite (lastEntry_greatest m k e Hk Hlt). reflexivity.
  - intros getId getHeight l Hnd ->. apply totalContentHeight_normalized, Hnd.
  - apply Math_max_0_nonneg.
Qed.

End MaxOffset.

(** ** Numbers: comparison, minimum and maximum *)

Lemma Num_eq_refl (a : num) : Num.eq a a.
Proof. destruct a; simpl; trivial. reflexivity. Qed.

Lemma Num_eq_sym (a b : num) : Num.eq a b -> Num.eq b a.
Proof. destruct a, b; simpl; trivial. intros H. symmetry. exact H. Qed.

Lemma Num_eq_trans (a b c : num) : Num.eq a b -> Num.eq b c -> Num.eq a c.
Proof.
  destruct a, b, c; simpl; trivial; try contradiction.
  intros H1 H2. rewrite H1. exact H2.
Qed.

Lemma Qltb_proper (a a' b b' : Q) : a == a' -> b == b' -> Qltb a b = Qltb a' b'.
Proof.
  intros Ha Hb. destruct (Qltb a' b') eqn:H.
  - apply Qltb_true in H. apply Qltb_true. lra.
  - apply Qltb_false in H. apply Qltb_false. lra.
Qed.

Lemma leb_ltb_false (a b : num) : Num.leb a b = true -> Num.ltb b a = false.
Proof.
  destruct a as [x | | |], b as [y | | |]; simpl; try reflexivity; try discriminate.
  intros H. apply Qle_bool_iff in H. apply Qltb_false. exact H.
Qed.

Lemma Math_min_Fin (a b : Q) : Num.Math_min (Fin a) (Fin b) = Fin (minQ a b).
Proof. unfold minQ. simpl. destruct (Qltb b a); reflexivity. Qed.

Lemma Math_max_Fin (a b : Q) : Num.Math_max (Fin a) (Fin b) = Fin (maxQ a b).
Proof. unfold maxQ. simpl. destruct (Qltb a b); reflexivity. Qed.

Lemma minQ_spec (a b : Q) : (b < a /\ minQ a b = b) \/ (a <= b /\ minQ a b = a).
Proof.
  unfold minQ. destruct (Qltb b a) eqn:H.
  - left. split; [apply Qltb_true, H | reflexivity].
  - right. split; [apply Qltb_false, H | reflexivity].
Qed.

Lemma maxQ_spec (a b : Q) : (a < b /\ maxQ a b = b) \/ (b <= a /\ maxQ a b = a).
Proof.
  unfold maxQ. destruct (Qltb a b) eqn:H.
  - left. split; [apply Qltb_true, H | reflexivity].
  - right. split; [apply Qltb_false, H | reflexivity].
Qed.

Lemma minQ_proper (a b b' : Q) : b == b' -> minQ a b == minQ a b'.
Proof.
  intros H.
  destruct (minQ_spec a b) as [[H1 ->] | [H1 ->]];
    destruct (minQ_spec a b') as [[H2 ->] | [H2 ->]]; lra.
Qed.

Lemma minQ_nonneg (a b : Q) : 0 <= a -> 0 <= b -> 0 <= minQ a b.
Proof. intros Ha Hb. destruct (minQ_spec a b) as [[_ ->] | [_ ->]]; assumption. Qed.

Lemma minQ_le_l (a b : Q) : minQ a b <= a.
Proof. destruct (minQ_spec a b) as [[H ->] | [H ->]]; lra. Qed.

Lemma maxQ_0_nonneg (x : Q) : 0 <= x -> maxQ 0 x == x.
Proof. intros H. destruct (maxQ_spec 0 x) as [[_ ->] | [H' ->]]; lra. Qed.

(** [Math.min] never exceeds its first argument. *)
Lemma Math_min_le_l (a b : num) : Num.ltb a (Num.Math_min a b) = false.
Proof.
  destruct a as [x | | |], b as [y | | |]; simpl; try reflexivity;
    try (apply Qltb_false; lra).
  destruct (Qltb y x) eqn:H; simpl.
  - apply Qltb_true in H. apply Qltb_false. lra.
  - apply Qltb_false. lra.
Qed.

(** [Math.min] respects equality of numbers in its second argument. *)
Lemma Math_min_eq_r (a b b' : num) :
  Num.eq b b' -> Num.eq (Num.Math_min a b) (Num.Math_min a b').
Proof.
  destruct a as [x | | |], b as [y | | |], b' as [y' | | |];
    simpl; trivial; try contradiction; try reflexivity.
  intros H. rewrite (Qltb_proper y y' x x H (Qeq_refl x)).
  destruct (Qltb y' x); simpl; [exact H | reflexivity].
Qed.

Lemma Qeq_bool_pos (d : Q) : 0 < d -> Qeq_bool d 0 = false.
Proof.
  intros H. apply not_true_iff_false. intros E. apply Qeq_bool_iff in E. lra.
Qed.

Lemma easeQ_proper (u v : Q) : u == v -> easeQ u == easeQ v.
Proof.
  intros H. unfold easeQ, Qpow5.
  rewrite (Qltb_proper u v (1#2) (1#2) H (Qeq_refl _)).
  destruct (Qltb v (1#2)); rewrite H; reflexivity.
Qed.

(** ** The frame callback *)

Section Animator.

Context {Item : Type}.

Implicit Types (r : Render Item) (st : Instance Item) (a : AnimationData).

(** A frame that sees [ellapsed < scrollDuration] sets the offset and asks
    for the next frame. *)
Lemma frameCallback_continues r (now : Q) st :
  listRef st = true ->
  Num.ltb (ellapsed (animationData st) now) (scrollDuration (props r)) = true ->
  frameCallback r now st
  = Some (tt, {| animationData := animationData st;
                 scrollTopRef := scrollTopRef st;
                 listRef := true;
                 rafQueue := rafQueue st ++ [r];
                 trace := trace st ++ [ScrollTo (frameOffset r (animationData st) now)] |}).
Proof.
  intros Hl Hlt. destruct st as [a top l q tr]. simpl in Hl, Hlt. subst l.
  run_monad. rewrite Hlt. reflexivity.
Qed.

(** A frame that does not see [ellapsed < scrollDuration] sets the offset,
    marks the animation idle, commits the baseline and reports completion. *)
Lemma frameCallback_completes r (now : Q) st :
  listRef st = true ->
  Num.ltb (ellapsed (animationData st) now) (scrollDuration (props r)) = false ->
  frameCallback r now st
  = Some (tt, {| animationData :=
                   {| scrollOffsetInitial := scrollOffsetFinal (animationData st);
                      scrollOffsetFinal := scrollOffsetFinal (animationData st);
                      animationStartTime := None |};
                 scrollTopRef := scrollTopRef st;
                 listRef := true;
                 rafQueue := rafQueue st;
                 trace := trace st
                          ++ completionEvents r (frameOffset r (animationData st) now) |}).
Proof.
  intros Hl Hge. destruct st as [a top l q tr]. simpl in Hl, Hge. subst l.
  run_monad. rewrite Hge. unfold completionEvents.
  destruct (onScrollToFinished (props r)); run_monad.
  - rewrite <- app_assoc. reflexivity.
  - reflexivity.
Qed.

Lemma frameCallback_detached r (now : Q) st :
  listRef st = false -> frameCallback r now st = None.
Proof.
  intros Hl. destruct st as [a top l q tr]. simpl in Hl. subst l. reflexivity.
Qed.

Lemma completions_app (t u : list Event) :
  completions (t ++ u) = (completions t + completions u)%nat.
Proof.
  induction t as [| e t IH]; simpl; [reflexivity |].
  destruct e; simpl; rewrite IH; reflexivity.
Qed.

Lemma scrollTos_app (t u : list Event) : scrollTos (t ++ u) = scrollTos t ++ scrollTos u.
Proof.
  induction t as [| e t IH]; simpl; [reflexivity |].
  destruct e; simpl; rewrite IH; reflexivity.
Qed.

Lemma step_frame r (q : list (Render Item)) (now : Q) st :
  rafQueue st = r :: q ->
  step (AnimationFrame now) st
  = frameCallback r now {| animationData := animationData st;
                           scrollTopRef := scrollTopRef st;
                           listRef := listRef st;
                           rafQueue := q;
                           trace := trace st |}.
Proof.
  intros Hq. destruct st as [a top l q' tr]. simpl in Hq. subst q'. reflexivity.
Qed.

Lemma step_frame_idle (now : Q) st :
  rafQueue st = [] -> step (AnimationFrame now) st = Some (tt, st).
Proof.
  intros Hq. destruct st as [a top l q' tr]. simpl in Hq. subst q'. reflexivity.
Qed.

(** The three outcomes of running the oldest waiting frame callback. *)
Lemma step_frame_cases r (q : list (Render Item)) (now : Q) st :
  rafQueue st = r :: q ->
  step (AnimationFrame now) st
  = if listRef st then
      if Num.ltb (ellapsed (animationData st) now) (scrollDuration (props r)) then
        Some (tt, {| animationData := animationData st;
                     scrollTopRef := scrollTopRef st;
                     listRef := true;
                     rafQueue := q ++ [r];
                     trace := trace st ++ [ScrollTo (frameOffset r (animationData st) now)] |})
      else
        Some (tt, {| animationData :=
                       {| scrollOffsetInitial := scrollOffsetFinal (animationData st);
                          scrollOffsetFinal := scrollOffsetFinal (animationData st);
                          animationStartTime := None |};
                     scrollTopRef := scrollTopRef st;
                     listRef := true;
                     rafQueue := q;
                     trace := trace st
                              ++ completionEvents r (frameOffset r (animationData st) now) |})
    else None.
Proof.
  intros Hq. rewrite (step_frame r q now st Hq).
  destruct st as [a top l q' tr]. cbn [animationData scrollTopRef listRef rafQueue trace].
  destruct l; [| reflexivity].
  destruct (Num.ltb (ellapsed a now) (scrollDuration (props r))) eqn:Hlt.
  - rewrite frameCallback_continues; [reflexivity | reflexivity | exact Hlt].
  - rewrite frameCallback_completes; [reflexivity | reflexivity | exact Hlt].
Qed.

(** C4. When the browser runs the waiting frame callback and the frame
    observes [ellapsed >= scrollDuration], the callback asks for no further
    frame, [animationStartTime] becomes [undefined], [scrollOffsetInitial]
    becomes [scrollOffsetFinal], and the completion callback is called
    exactly once; afterwards no frame callback is left to run. A frame
    observing [ellapsed < scrollDuration] does not call it. *)
Theorem frame_completion r (now : Q) st :
  listRef st = true ->
  rafQueue st = [r] ->
  exists st',
    step (AnimationFrame now) st = Some (tt, st') /\
    (Num.leb (scrollDuration (props r)) (ellapsed (animationData st) now) = true ->
       rafQueue st' = [] /\
       animationStartTime (animationData st') = None /\
       scrollOffsetInitial (animationData st') = scrollOffsetFinal (animationData st) /\
       scrollOffsetFinal (animationData st') = scrollOffsetFinal (animationData st) /\
       trace st' = trace st ++ completionEvents r (frameOffset r (animationData st) now) /\
       (onScrollToFinished (props r) = true ->
          completions (trace st') = S (completions (trace st))) /\
       forall now', step (AnimationFrame now') st' = Some (tt, st')) /\
    (Num.ltb (ellapsed (animationData st) now) (scrollDuration (props r)) = true ->
       rafQueue st' = [r] /\
       animationData st' = animationData st /\
       completions (trace st') = completions (trace st)).
Proof.
  intros Hl Hq. rewrite (step_frame r [] now st Hq).
  destruct (Num.ltb (ellapsed (animationData st) now) (scrollDuration (props r))) eqn:Hlt.
  - rewrite frameCallback_continues by assumption.
    eexists. split; [reflexivity |]. split.
    + intros Hle. apply leb_ltb_false in Hle. simpl in Hlt. congruence.
    + intros _. simpl. repeat split.
      rewrite completions_app. simpl. lia.
  - rewrite frameCallback_completes by assumption.
    eexists. split; [reflexivity |]. split; [| discriminate].
    intros _. simpl. repeat split.
    intros Hf. rewrite completions_app. unfold completionEvents.
    rewrite Hf. simpl. lia.
Qed.

(** *** The offset of a frame *)

(** The interpolated offset on finite data, before the clamp against
    [maxListOffset]. *)
Lemma frameOffset_finite r a (now i f s d : Q) :
  scrollOffsetInitial a = Fin i ->
  scrollOffsetFinal a = Fin f ->
  animationStartTime a = Some (Fin s) ->
  scrollDuration (props r) = Fin d ->
  Qeq_bool d 0 = false ->
  frameOffset r a now
  = Num.Math_min (maxListOffset r)
      (Fin (i + (f - i) * easeQ (minQ 1 ((now - s) / d)))).
Proof.
  intros Hi Hf Hs Hd Hd0. unfold frameOffset, ellapsed.
  rewrite Hi, Hf, Hs, Hd. cbn [ToNumber Num.sub Num.div]. rewrite Hd0.
  rewrite Math_min_Fin, easeInOutQuint_Fin. reflexivity.
Qed.

Lemma specFrameOffset_finite r a (now i f s d m : Q) :
  scrollOffsetInitial a = Fin i ->
  scrollOffsetFinal a = Fin f ->
  animationStartTime a = Some (Fin s) ->
  scrollDuration (props r) = Fin d ->
  maxListOffset r = Fin m ->
  Qeq_bool d 0 = false ->
  specFrameOffset r a now
  = Fin (maxQ 0 (minQ m (i + (f - i) * easeQ (maxQ 0 (minQ 1 ((now - s) / d)))))).
Proof.
  intros Hi Hf Hs Hd Hm Hd0. unfold specFrameOffset, ellapsed, Num.clamp.
  rewrite Hi, Hf, Hs, Hd, Hm. cbn [ToNumber Num.sub Num.div]. rewrite Hd0.
  rewrite Math_min_Fin, Math_max_Fin, easeInOutQuint_Fin.
  cbn [Num.mul Num.add]. rewrite Math_min_Fin, Math_max_Fin. reflexivity.
Qed.

(** When the quotient [ellapsed / scrollDuration] is [Infinity], the
    progress is 1. *)
Lemma frameOffset_quotient_inf r a (now : Q) :
  Num.div (ellapsed a now) (scrollDuration (props r)) = PInf ->
  frameOffset r a now
  = Num.Math_min (maxListOffset r)
      (Num.add (scrollOffsetInitial a)
         (Num.mul (Num.sub (scrollOffsetFinal a) (scrollOffsetInitial a))
            (easeInOutQuint (Fin 1)))).
Proof. intros H. unfold frameOffset. rewrite H. reflexivity. Qed.

(** When the quotient is [NaN], so is the offset. *)
Lemma frameOffset_quotient_nan r a (now : Q) :
  Num.div (ellapsed a now) (scrollDuration (props r)) = NaN ->
  frameOffset r a now = NaN.
Proof.
  intros H. unfold frameOffset. rewrite H.
  change (easeInOutQuint (Num.Math_min (Fin 1) NaN)) with NaN.
  destruct (Num.sub (scrollOffsetFinal a) (scrollOffsetInitial a)),
    (scrollOffsetInitial a), (maxListOffset r); reflexivity.
Qed.

Lemma interpolate_end (i f : Q) : i + (f - i) * easeQ 1 == f.
Proof. rewrite easeQ_1. ring. Qed.

Lemma interpolate_nonneg (i f u : Q) :
  0 <= i -> 0 <= f -> 0 <= u -> u <= 1 -> 0 <= i + (f - i) * u.
Proof. intros. nra. Qed.

Lemma progress_bounds (e d : Q) :
  0 < d -> 0 <= e -> 0 <= minQ 1 (e / d) /\ minQ 1 (e / d) <= 1.
Proof.
  intros Hd He.
  assert (Ht : 0 <= e / d) by (apply Qle_shift_div_l; lra).
  destruct (minQ_spec 1 (e / d)) as [[H ->] | [H ->]]; split; lra.
Qed.

Lemma progress_end (e d : Q) : 0 < d -> d <= e -> minQ 1 (e / d) = 1.
Proof.
  intros Hd He.
  assert (Ht : 1 <= e / d) by (apply Qle_shift_div_l; lra).
  destruct (minQ_spec 1 (e / d)) as [[H _] | [_ ->]]; [lra | reflexivity].
Qed.

Lemma step_frame_scrollTo r (q : list (Render Item)) (now : Q) st :
  listRef st = true ->
  rafQueue st = r :: q ->
  exists st',
    step (AnimationFrame now) st = Some (tt, st') /\
    scrollTos (trace st')
    = scrollTos (trace st) ++ [frameOffset r (animationData st) now].
Proof.
  intros Hl Hq. rewrite (step_frame r q now st Hq).
  destruct (Num.ltb (ellapsed (animationData st) now) (scrollDuration (props r))) eqn:Hlt.
  - rewrite frameCallback_continues by assumption.
    eexists. split; [reflexivity |]. simpl. rewrite scrollTos_app. reflexivity.
  - rewrite frameCallback_completes by assumption.
    eexists. split; [reflexivity |]. simpl. rewrite scrollTos_app.
    unfold completionEvents. destruct (onScrollToFinished (props r)); reflexivity.
Qed.

(** On finite, non-negative data with a positive duration the two missing
    lower clamps make no difference. *)
Lemma frameOffset_agrees r a (now i f s d m : Q) :
  scrollOffsetInitial a = Fin i ->
  scrollOffsetFinal a = Fin f ->
  animationStartTime a = Some (Fin s) ->
  scrollDuration (props r) = Fin d ->
  maxListOffset r = Fin m ->
  0 <= i -> 0 <= f -> 0 <= m -> 0 < d -> s <= now ->
  exists x : Q,
    frameOffset r a now = Fin x /\ 0 <= x /\ x <= m /\
    Num.eq (Fin x) (specFrameOffset r a now).
Proof.
  intros Hi Hf Hs Hd Hm Hi0 Hf0 Hm0 Hd0 Hsn.
  pose proof (Qeq_bool_pos d Hd0) as Hdz.
  rewrite (frameOffset_finite r a now i f s d Hi Hf Hs Hd Hdz).
  rewrite (specFrameOffset_finite r a now i f s d m Hi Hf Hs Hd Hm Hdz).
  rewrite Hm, Math_min_Fin. eexists. split; [reflexivity |].
  assert (He : 0 <= now - s) by lra.
  destruct (progress_bounds (now - s) d Hd0 He) as [Hu0 Hu1].
  set (u := minQ 1 ((now - s) / d)) in *.
  destruct (easeQ_range u Hu0 Hu1) as [HE0 HE1].
  assert (HE : easeQ (maxQ 0 u) == easeQ u).
  { destruct (maxQ_spec 0 u) as [[_ ->] | [H ->]]; [reflexivity |].
    apply easeQ_proper. lra. }
  pose proof (interpolate_nonneg i f (easeQ u) Hi0 Hf0 HE0 HE1) as Hv.
  assert (Hv' : i + (f - i) * easeQ (maxQ 0 u) == i + (f - i) * easeQ u)
    by (rewrite HE; reflexivity).
  set (v := i + (f - i) * easeQ u) in *.
  set (v' := i + (f - i) * easeQ (maxQ 0 u)) in *.
  assert (Hx0 : 0 <= minQ m v) by (apply minQ_nonneg; assumption).
  split; [exact Hx0 |]. split; [apply minQ_le_l |].
  cbn [Num.eq].
  assert (Hx0' : 0 <= minQ m v') by (apply minQ_nonneg; lra).
  rewrite (maxQ_0_nonneg _ Hx0'). symmetry. apply minQ_proper, Hv'.
Qed.

(** With a positive duration and [ellapsed >= scrollDuration] the progress
    is 1. *)
Lemma frameOffset_progress_one r a (now s d : Q) :
  animationStartTime a = Some (Fin s) ->
  scrollDuration (props r) = Fin d ->
  0 < d -> d <= now - s ->
  Num.Math_min (Fin 1) (Num.div (ellapsed a now) (scrollDuration (props r))) = Fin 1 /\
  frameOffset r a now
  = Num.Math_min (maxListOffset r)
      (Num.add (scrollOffsetInitial a)
         (Num.mul (Num.sub (scrollOffsetFinal a) (scrollOffsetInitial a))
            (easeInOutQuint (Fin 1)))).
Proof.
  intros Hs Hd Hd0 Hend.
  assert (Hp : Num.Math_min (Fin 1) (Num.div (ellapsed a now) (scrollDuration (props r)))
               = Fin 1).
  { unfold ellapsed. rewrite Hs, Hd. cbn [ToNumber Num.sub Num.div].
    rewrite (Qeq_bool_pos d Hd0), Math_min_Fin, (progress_end (now - s) d Hd0 Hend).
    reflexivity. }
  split; [exact Hp |]. unfold frameOffset. rewrite Hp. reflexivity.
Qed.

(** From a baseline of 0 the interpolation at progress 1 is the target. *)
Lemma interpolate_from_zero (m : num) (i f : Q) :
  i == 0 ->
  Num.eq
    (Num.Math_min m
       (Num.add (Fin i) (Num.mul (Num.sub (Fin f) (Fin i)) (easeInOutQuint (Fin 1)))))
    (Num.Math_min m (Fin f)).
Proof.
  intros Hi. rewrite easeInOutQuint_Fin. cbn [Num.sub Num.mul Num.add].
  apply Math_min_eq_r. cbn [Num.eq]. rewrite Hi, easeQ_1. ring.
Qed.

(** C1. The frame callback hands [scrollTo] the interpolated offset
    [scrollOffsetInitial + (scrollOffsetFinal - scrollOffsetInitial) *
    easing(min(1, ellapsed / scrollDuration))] clamped from above by the
    [maxListOffset] of its render, so never an offset above that value;
    nothing is clamped from below. With a positive duration and
    [ellapsed >= scrollDuration] the progress is 1, and from a baseline of 0
    the offset is the target clamped by [maxListOffset]. When the duration
    is positive, time does not run backwards, and the offsets and
    [maxListOffset] are finite and non-negative, the offset is the one with
    progress clamped to [0,1] and the result clamped to [0, maxListOffset],
    and it is not below 0. *)
Theorem frame_offset r (q : list (Render Item)) (now : Q) st :
  listRef st = true ->
  rafQueue st = r :: q ->
  let a := animationData st in
  (exists st',
      step (AnimationFrame now) st = Some (tt, st') /\
      scrollTos (trace st') = scrollTos (trace st) ++ [frameOffset r a now]) /\
  frameOffset r a now
  = Num.Math_min (maxListOffset r)
      (Num.add (scrollOffsetInitial a)
         (Num.mul (Num.sub (scrollOffsetFinal a) (scrollOffsetInitial a))
            (easeInOutQuint
               (Num.Math_min (Fin 1)
                  (Num.div (ellapsed a now) (scrollDuration (props r))))))) /\
  Num.ltb (maxListOffset r) (frameOffset r a now) = false /\
  (forall s d : Q,
      animationStartTime a = Some (Fin s) ->
      scrollDuration (props r) = Fin d ->
      0 < d -> d <= now - s ->
      Num.Math_min (Fin 1) (Num.div (ellapsed a now) (scrollDuration (props r))) = Fin 1 /\
      frameOffset r a now
      = Num.Math_min (maxListOffset r)
          (Num.add (scrollOffsetInitial a)
             (Num.mul (Num.sub (scrollOffsetFinal a) (scrollOffsetInitial a))
                (easeInOutQuint (Fin 1)))) /\
      forall i f : Q,
        scrollOffsetInitial a = Fin i -> i == 0 ->
        scrollOffsetFinal a = Fin f ->
        Num.eq (frameOffset r a now) (Num.Math_min (maxListOffset r) (Fin f))) /\
  forall i f s d m : Q,
    scrollOffsetInitial a = Fin i ->
    scrollOffsetFinal a = Fin f ->
    animationStartTime a = Some (Fin s) ->
    scrollDuration (props r) = Fin d ->
    maxListOffset r = Fin m ->
    0 <= i -> 0 <= f -> 0 <= m -> 0 < d -> s <= now ->
    Num.eq (frameOffset r a now) (specFrameOffset r a now) /\
    Num.leb (Fin 0) (frameOffset r a now) = true /\
    Num.leb (frameOffset r a now) (Fin m) = true.
Proof.
  intros Hl Hq a. split; [apply (step_frame_scrollTo r q); assumption |].
  split; [reflexivity |]. split; [apply Math_min_le_l |]. split.
  - intros s d Hs Hd Hd0 Hend.
    destruct (frameOffset_progress_one r a now s d Hs Hd Hd0 Hend) as [Hp Hx].
    split; [exact Hp |]. split; [exact Hx |].
    intros i f Hi Hi0 Hf. rewrite Hx, Hi, Hf. apply interpolate_from_zero, Hi0.
  - intros i f s d m Hi Hf Hs Hd Hm Hi0 Hf0 Hm0 Hd0 Hsn.
    destruct (frameOffset_agrees r a now i f s d m) as (x & Hx & Hx0 & Hxm & Hspec);
      try assumption.
    rewrite Hx. repeat split.
    + exact Hspec.
    + apply leb_Fin, Hx0.
    + apply leb_Fin, Hxm.
Qed.

End Animator.

Lemma exampleInFlight_reached (d : Q) :
  run [Attach true; Effect (exampleRender d) 1000] initialInstance
  = Some (tt, exampleInFlight d).
Proof. reflexivity. Qed.

Lemma frame_offset_witness :
  Num.eq (frameOffset (exampleRender 200) (animationData (exampleInFlight 200)) 1200)
    (Num.Math_min (Fin 65) (Fin 90)).
Proof.
  assert (Hd : 0 < 200) by (unfold Qlt; simpl; lia).
  assert (Hend : 200 <= 1200 - 1000) by (unfold Qle; simpl; lia).
  destruct (frame_offset (exampleRender 200) [] 1200 (exampleInFlight 200)
              eq_refl eq_refl) as (_ & _ & _ & H & _).
  destruct (H 1000 200 eq_refl eq_refl Hd Hend) as (_ & _ & H0).
  exact (H0 0 90 eq_refl (Qeq_refl 0) eq_refl).
Defined.

(** With a negative duration the offset handed to [scrollTo] is below 0 and
    is not the two-sided clamp of the specification. *)
Lemma frame_offset_below_zero :
  exists (st' : Instance (string * Q)) (x : num),
    run [Attach true; Effect (exampleRender (-1)) 1000; AnimationFrame 1001]
      initialInstance = Some (tt, st') /\
    scrollTos (trace st') = [x] /\
    Num.eq x (Fin (-1440)) /\
    Num.ltb x (Fin 0) = true /\
    ~ Num.eq x
        (specFrameOffset (exampleRender (-1))
           (animationData (exampleInFlight (-1))) 1001).
Proof.
  eexists. eexists. split; [vm_compute; reflexivity |].
  split; [reflexivity |]. split; [reflexivity |]. split; [reflexivity |].
  vm_compute. discriminate.
Qed.

(** ** Degenerate durations and user scrolls *)

Section Interference.

Context {Item : Type}.

Implicit Types (r : Render Item) (st : Instance Item) (a : AnimationData).

Lemma ellapsed_Fin a (now s : Q) :
  animationStartTime a = Some (Fin s) -> ellapsed a now = Fin (now - s).
Proof. intros Hs. unfold ellapsed. rewrite Hs. reflexivity. Qed.

(** C8. With a duration of 0 or below, the first frame (at a clock reading
    not before the start) completes the animation whenever the offset it
    hands to [scrollTo] is not [NaN]: the frame callback throws nothing
    while a list is attached, requests no further frame, marks the
    animation idle, commits the baseline and emits the completion events.
    When the quotient [ellapsed / scrollDuration] is [Infinity] the progress
    is 1 and, from a baseline of 0, the offset is the target clamped by the
    [maxListOffset] of the render; when the duration is 0 and no time has
    passed the quotient and the offset are [NaN]. *)
Theorem frame_nonpositive_duration r (q : list (Render Item)) (now s d : Q) st :
  listRef st = true ->
  rafQueue st = r :: q ->
  animationStartTime (animationData st) = Some (Fin s) ->
  scrollDuration (props r) = Fin d ->
  d <= 0 ->
  s <= now ->
  (frameOffset r (animationData st) now <> NaN ->
   exists st',
     step (AnimationFrame now) st = Some (tt, st') /\
     rafQueue st' = q /\
     animationStartTime (animationData st') = None /\
     scrollOffsetInitial (animationData st') = scrollOffsetFinal (animationData st) /\
     trace st' = trace st ++ completionEvents r (frameOffset r (animationData st) now)) /\
  (Num.div (ellapsed (animationData st) now) (scrollDuration (props r)) = PInf ->
     frameOffset r (animationData st) now
     = Num.Math_min (maxListOffset r)
         (Num.add (scrollOffsetInitial (animationData st))
            (Num.mul
               (Num.sub (scrollOffsetFinal (animationData st))
                  (scrollOffsetInitial (animationData st)))
               (easeInOutQuint (Fin 1)))) /\
     forall i f : Q,
       scrollOffsetInitial (animationData st) = Fin i -> i == 0 ->
       scrollOffsetFinal (animationData st) = Fin f ->
       Num.eq (frameOffset r (animationData st) now)
         (Num.Math_min (maxListOffset r) (Fin f))) /\
  (d == 0 -> now == s ->
     Num.div (ellapsed (animationData st) now) (scrollDuration (props r)) = NaN /\
     frameOffset r (animationData st) now = NaN).
Proof.
  intros Hl Hq Hs Hd Hd0 Hsn. split; [| split].
  - intros _. rewrite (step_frame r q now st Hq), frameCallback_completes.
    + eexists. split; [reflexivity |]. repeat split.
    + exact Hl.
    + cbn [animationData]. rewrite (ellapsed_Fin _ now s Hs), Hd. simpl.
      apply Qltb_false. lra.
  - intros Hinf. split; [apply frameOffset_quotient_inf, Hinf |].
    intros i f Hi Hi0 Hf.
    rewrite (frameOffset_quotient_inf r _ now Hinf), Hi, Hf.
    apply interpolate_from_zero, Hi0.
  - intros Hz Hns.
    assert (Hnan : Num.div (ellapsed (animationData st) now) (scrollDuration (props r))
                   = NaN).
    { rewrite (ellapsed_Fin _ now s Hs), Hd. cbn [Num.div].
      apply Qeq_bool_iff in Hz. rewrite Hz.
      assert (Hc : (now - s ?= 0) = Eq) by (apply Qeq_alt; lra).
      rewrite Hc. reflexivity. }
    split; [exact Hnan | apply frameOffset_quotient_nan, Hnan].
Qed.

(** C2. A scroll reported by the list that was not requested by the
    component records the offset as [scrollOffsetInitial] and in
    [scrollTopRef], and touches nothing else: target, start time and waiting
    frame callbacks stay, and neither [scrollTo] nor the completion callback
    is called. The frames that follow interpolate from the recorded
    offset. *)
Theorem user_scroll_in_flight r (dir : ScrollDirection) (x : num) st :
  exists st',
    onScrollCB r dir x false st = Some (tt, st') /\
    animationData st'
    = {| scrollOffsetInitial := x;
         scrollOffsetFinal := scrollOffsetFinal (animationData st);
         animationStartTime := animationStartTime (animationData st) |} /\
    scrollTopRef st' = x /\
    listRef st' = listRef st /\
    rafQueue st' = rafQueue st /\
    scrollTos (trace st') = scrollTos (trace st) /\
    completions (trace st') = completions (trace st) /\
    (forall r' (now : Q),
        frameOffset r' (animationData st') now
        = Num.Math_min (maxListOffset r')
            (Num.add x
               (Num.mul (Num.sub (scrollOffsetFinal (animationData st)) x)
                  (easeInOutQuint
                     (Num.Math_min (Fin 1)
                        (Num.div (ellapsed (animationData st) now)
                           (scrollDuration (props r')))))))).
Proof.
  destruct st as [a top l q tr].
  destruct (onScroll (props r)) eqn:Ho.
  - eexists. split.
    { run_monad. cbn [negb]. run_monad. rewrite Ho. run_monad. reflexivity. }
    cbn [animationData scrollTopRef listRef rafQueue trace].
    repeat split.
    + rewrite scrollTos_app. simpl. apply app_nil_r.
    + rewrite completions_app. simpl. lia.
  - eexists. split.
    { run_monad. cbn [negb]. run_monad. rewrite Ho. run_monad. reflexivity. }
    cbn [animationData scrollTopRef listRef rafQueue trace].
    repeat split.
Qed.

End Interference.

Lemma frame_nonpositive_duration_witness :
  (exists st' : Instance (string * Q),
      step (AnimationFrame 1016) (exampleInFlight 0) = Some (tt, st') /\
      rafQueue st' = [] /\
      animationStartTime (animationData st') = None) /\
  Num.eq (frameOffset (exampleRender 0) (animationData (exampleInFlight 0)) 1016)
    (Num.Math_min (Fin 65) (Fin 90)).
Proof.
  assert (Hd : 0 <= 0) by (unfold Qle; simpl; lia).
  assert (Hsn : 1000 <= 1016) by (unfold Qle; simpl; lia).
  assert (Hnan : frameOffset (exampleRender 0) (animationData (exampleInFlight 0)) 1016
                 <> NaN) by (vm_compute; discriminate).
  destruct (frame_nonpositive_duration (exampleRender 0) [] 1016 1000 0
              (exampleInFlight 0) eq_refl eq_refl eq_refl eq_refl Hd Hsn)
    as (Hdone & Hinf & _).
  split.
  - destruct (Hdone Hnan) as (st' & Hstep & Hq & Hs & _).
    exists st'. split; [exact Hstep |]. split; [exact Hq | exact Hs].
  - destruct (Hinf eq_refl) as [_ H0].
    exact (H0 0 90 eq_refl (Qeq_refl 0) eq_refl).
Defined.

(** With a negative duration the single frame completes the animation but
    hands [scrollTo] an offset that is not the clamped target. *)
Lemma frame_negative_duration_misses_target :
  exists (st' : Instance (string * Q)) (x : num),
    run [Attach true; Effect (exampleRender (-16)) 1000; AnimationFrame 1016]
      initialInstance = Some (tt, st') /\
    rafQueue st' = [] /\
    animationStartTime (animationData st') = None /\
    trace st' = [ScrollTo x; OnScrollToFinished] /\
    Num.eq x (Fin (-1440)) /\
    ~ Num.eq x (Num.clamp (Fin 90) (Fin 0) (Fin 65)).
Proof.
  eexists. eexists. split; [vm_compute; reflexivity |].
  repeat (split; [reflexivity |]).
  vm_compute. discriminate.
Qed.

(** A user scroll between two frames changes the offset of the next frame:
    45 without it, 65 with a scroll to 40. *)
Lemma user_scroll_alters_next_frame :
  exists (st1 st2 : Instance (string * Q)) (x1 x2 : num),
    run [Attach true; Effect (exampleRender 200) 1000;
         AnimationFrame 1100] initialInstance = Some (tt, st1) /\
    run [Attach true; Effect (exampleRender 200) 1000;
         Scroll (exampleRender 200) forward (Fin 40) false;
         AnimationFrame 1100] initialInstance = Some (tt, st2) /\
    scrollTos (trace st1) = [x1] /\
    scrollTos (trace st2) = [x2] /\
    Num.eq x1 (Fin 45) /\
    Num.eq x2 (Fin 65) /\
    ~ Num.eq x1 x2.
Proof.
  do 4 eexists. split; [vm_compute; reflexivity |].
  split; [vm_compute; reflexivity |].
  repeat (split; [reflexivity |]).
  vm_compute. discriminate.
Qed.

(** ** The guard of [startScrollAnimation] and the effect *)

Section Guard.

Context {Item : Type}.

Implicit Types (r : Render Item) (st : Instance Item) (it : Entry Item).

Lemma startScrollAnimation_blocked r (now : Q) it st :
  ToBoolean (animationStartTime (animationData st)) = true
  \/ Num.strict_eq (scrollOffsetFinal (animationData st)) (offsetTop it) = true ->
  startScrollAnimation r now it st = Some (tt, st).
Proof.
  intros H. destruct st as [a top l q tr]. run_monad.
  destruct H as [H | H]; simpl in H; rewrite H; [| rewrite orb_true_r]; reflexivity.
Qed.

Lemma startScrollAnimation_starts r (now : Q) it st :
  ToBoolean (animationStartTime (animationData st)) = false ->
  Num.strict_eq (scrollOffsetFinal (animationData st)) (offsetTop it) = false ->
  startScrollAnimation r now it st
  = Some (tt, {| animationData :=
                   {| scrollOffsetInitial := scrollOffsetInitial (animationData st);
                      scrollOffsetFinal := offsetTop it;
                      animationStartTime := Some (Fin now) |};
                 scrollTopRef := scrollTopRef st;
                 listRef := listRef st;
                 rafQueue := rafQueue st ++ [r];
                 trace := trace st |}).
Proof.
  intros H1 H2. destruct st as [a top l q tr]. run_monad.
  simpl in H1, H2. rewrite H1, H2. reflexivity.
Qed.

Lemma scrollToEffect_found r (now : Q) (k : string) it st :
  scrollToId (props r) = Some k ->
  normalizedItems r !! k = Some it ->
  scrollToEffect r now st
  = if truthyId (Some k) && listRef st
    then startScrollAnimation r now it st else Some (tt, st).
Proof.
  intros Hk Hit. unfold scrollToEffect, bind, get. rewrite Hk. simpl.
  rewrite Hit. destruct (negb (String.eqb k "") && listRef st); reflexivity.
Qed.

Lemma scrollToEffect_absent r (now : Q) st :
  scrollToId (props r) ≫= (fun k => normalizedItems r !! k) = None ->
  scrollToEffect r now st = Some (tt, st).
Proof.
  intros Hnone. unfold scrollToEffect, bind, get. rewrite Hnone.
  destruct (truthyId (scrollToId (props r)) && listRef st); reflexivity.
Qed.

(** The effect either leaves the instance alone or hands the entry found to
    [startScrollAnimation]. *)
Lemma scrollToEffect_cases r (now : Q) st :
  scrollToEffect r now st = Some (tt, st)
  \/ exists (k : string) (it : Entry Item),
       scrollToId (props r) = Some k /\
       normalizedItems r !! k = Some it /\
       listRef st = true /\
       scrollToEffect r now st = startScrollAnimation r now it st.
Proof.
  destruct (scrollToId (props r)) as [k |] eqn:Hk.
  - destruct (normalizedItems r !! k) as [it |] eqn:Hit.
    + pose proof (scrollToEffect_found r now k it st Hk Hit) as E.
      destruct (truthyId (Some k)); [| left; exact E].
      destruct (listRef st) eqn:Hl; [| left; exact E].
      right. exists k, it. repeat split; assumption.
    + left. apply scrollToEffect_absent. rewrite Hk. exact Hit.
  - left. apply scrollToEffect_absent. rewrite Hk. reflexivity.
Qed.

Lemma scrollToEffect_in_flight r (now : Q) st :
  ToBoolean (animationStartTime (animationData st)) = true ->
  scrollToEffect r now st = Some (tt, st).
Proof.
  intros H. destruct (scrollToEffect_cases r now st) as [E | (k & it & _ & _ & _ & E)];
    [exact E |].
  rewrite E. apply startScrollAnimation_blocked. left. exact H.
Qed.

(** C9. A request for an identifier that the index does not hold leaves the
    instance as it is: nothing is thrown, no frame is requested, no call is
    made. *)
Theorem scrollToEffect_missing r (now : Q) (k : string) st :
  scrollToId (props r) = Some k ->
  normalizedItems r !! k = None ->
  scrollToEffect r now st = Some (tt, st).
Proof.
  intros Hk Hnone. apply scrollToEffect_absent. rewrite Hk. exact Hnone.
Qed.

End Guard.

(** ** Runs of an instance *)

Section Runs.

Context {Item : Type}.

Implicit Types (r : Render Item) (st : Instance Item) (i : Input Item)
  (ins : list (Input Item)).

Lemma run_cons i ins st :
  run (i :: ins) st
  = match step i st with
    | Some (_, st') => run ins st'
    | None => None
    end.
Proof. reflexivity. Qed.

Lemma run_app ins1 ins2 st :
  run (ins1 ++ ins2) st
  = match run ins1 st with
    | Some (_, st') => run ins2 st'
    | None => None
    end.
Proof.
  revert st. induction ins1 as [| i ins1 IH]; intros st; [reflexivity |].
  rewrite <- app_comm_cons, !run_cons.
  destruct (step i st) as [[[] st'] |]; [apply IH | reflexivity].
Qed.

(** What a scroll report and an attachment change. *)
Lemma onScrollCB_fields r (d : ScrollDirection) (x : num) (b : bool) st st' :
  onScrollCB r d x b st = Some (tt, st') ->
  scrollOffsetFinal (animationData st') = scrollOffsetFinal (animationData st) /\
  animationStartTime (animationData st') = animationStartTime (animationData st) /\
  rafQueue st' = rafQueue st /\
  scrollTos (trace st') = scrollTos (trace st).
Proof.
  destruct st as [a top l q tr]. run_monad.
  destruct b, (onScroll (props r)); cbn [negb]; run_monad;
    intros [= <-]; cbn [animationData rafQueue trace scrollOffsetFinal animationStartTime];
    rewrite ?scrollTos_app, ?app_nil_r; repeat split; apply app_nil_r.
Qed.

Lemma ToBoolean_clock (now : Q) : 0 < now -> ToBoolean (Some (Fin now)) = true.
Proof. intros H. simpl. rewrite (Qeq_bool_pos now H). reflexivity. Qed.

Lemma step_oneAnimation i st st' :
  clockPositive i -> oneAnimation st -> step i st = Some (tt, st') -> oneAnimation st'.
Proof.
  unfold oneAnimation. intros Hc Hinv Hstep. destruct i as [b | r d x b | r now | now].
  - destruct st as [a top l q tr]. injection Hstep as <-. exact Hinv.
  - apply onScrollCB_fields in Hstep as (_ & -> & -> & _). exact Hinv.
  - simpl in Hstep, Hc.
    destruct (scrollToEffect_cases r now st) as [E | (k & it & _ & _ & _ & E)];
      rewrite E in Hstep.
    + injection Hstep as <-. exact Hinv.
    + destruct (ToBoolean (animationStartTime (animationData st))) eqn:Hb.
      * rewrite startScrollAnimation_blocked in Hstep by (left; exact Hb).
        injection Hstep as <-. rewrite Hb. exact Hinv.
      * destruct (Num.strict_eq (scrollOffsetFinal (animationData st)) (offsetTop it)) eqn:He.
        -- rewrite startScrollAnimation_blocked in Hstep by (right; exact He).
           injection Hstep as <-. rewrite Hb. exact Hinv.
        -- rewrite startScrollAnimation_starts in Hstep by assumption.
           injection Hstep as <-. cbn [animationData rafQueue animationStartTime].
           rewrite (ToBoolean_clock now Hc), List.length_app, Hinv. reflexivity.
  - destruct (rafQueue st) as [| r q] eqn:Hq.
    + rewrite step_frame_idle in Hstep by exact Hq. injection Hstep as <-.
      rewrite Hq. exact Hinv.
    + rewrite (step_frame_cases r q now st Hq) in Hstep.
      destruct (ToBoolean (animationStartTime (animationData st))) eqn:Hb;
        [| discriminate].
      destruct q; [| discriminate].
      destruct (listRef st); [| discriminate].
      destruct (Num.ltb (ellapsed (animationData st) now) (scrollDuration (props r)));
        injection Hstep as <-; cbn [animationData rafQueue animationStartTime ToBoolean];
        rewrite ?Hb; reflexivity.
Qed.

Lemma run_oneAnimation ins :
  forall st st',
    Forall clockPositive ins -> oneAnimation st ->
    run ins st = Some (tt, st') -> oneAnimation st'.
Proof.
  induction ins as [| i ins IH]; intros st st' Hc Hinv Hrun.
  - injection Hrun as <-. exact Hinv.
  - rewrite run_cons in Hrun. apply Forall_cons in Hc as [Hi Hc].
    destruct (step i st) as [[[] st1] |] eqn:Hstep; [| discriminate].
    apply (IH st1 st' Hc); [| exact Hrun].
    apply (step_oneAnimation i st st1); assumption.
Qed.

(** While no frame completes, an animation in flight stays in flight. *)
Lemma step_in_flight i st st' :
  ToBoolean (animationStartTime (animationData st)) = true ->
  completes i st = false ->
  step i st = Some (tt, st') ->
  ToBoolean (animationStartTime (animationData st')) = true.
Proof.
  intros Hb Hc Hstep. destruct i as [b | r d x b | r now | now].
  - destruct st as [a top l q tr]. injection Hstep as <-. exact Hb.
  - apply onScrollCB_fields in Hstep as (_ & -> & _). exact Hb.
  - simpl in Hstep. rewrite scrollToEffect_in_flight in Hstep by exact Hb.
    injection Hstep as <-. exact Hb.
  - destruct (rafQueue st) as [| r q] eqn:Hq.
    + rewrite step_frame_idle in Hstep by exact Hq. injection Hstep as <-. exact Hb.
    + rewrite (step_frame_cases r q now st Hq) in Hstep.
      simpl in Hc. rewrite Hq in Hc. apply negb_false_iff in Hc.
      rewrite Hc in Hstep. destruct (listRef st); [| discriminate].
      injection Hstep as <-. exact Hb.
Qed.

Lemma run_in_flight ins :
  forall st st',
    ToBoolean (animationStartTime (animationData st)) = true ->
    noCompletion ins st ->
    run ins st = Some (tt, st') ->
    ToBoolean (animationStartTime (animationData st')) = true.
Proof.
  induction ins as [| i ins IH]; intros st st' Hb Hnc Hrun.
  - injection Hrun as <-. exact Hb.
  - rewrite run_cons in Hrun. destruct Hnc as [Hc Hnc].
    destruct (step i st) as [[[] st1] |] eqn:Hstep; [| discriminate].
    apply (IH st1 st'); [| apply Hnc; reflexivity | exact Hrun].
    apply (step_in_flight i st st1); assumption.
Qed.

End Runs.

(** ** One animation at a time *)

Section Guarded.

Context {Item : Type}.

Implicit Types (r : Render Item) (st : Instance Item) (i : Input Item)
  (ins : list (Input Item)) (it : Entry Item).

Lemma initialInstance_oneAnimation : oneAnimation (@initialInstance Item).
Proof. reflexivity. Qed.

(** C3. With an animation in flight, or with a target equal to the recorded
    [scrollOffsetFinal], the request changes nothing. In every state reached
    from a fresh instance at most one frame callback waits, and one waits
    exactly while [animationStartTime] is set. A request that starts an
    animation asks for one frame; any request that arrives before a frame
    has completed that animation changes nothing. *)
Theorem scrollTo_guard :
  (forall r (now : Q) (k : string) it st,
      scrollToId (props r) = Some k ->
      normalizedItems r !! k = Some it ->
      ToBoolean (animationStartTime (animationData st)) = true
      \/ Num.strict_eq (scrollOffsetFinal (animationData st)) (offsetTop it) = true ->
      scrollToEffect r now st = Some (tt, st)) /\
  (forall ins st,
      Forall clockPositive ins ->
      run ins initialInstance = Some (tt, st) ->
      oneAnimation st /\ (length (rafQueue st) <= 1)%nat) /\
  (forall r1 (now1 : Q) (k : string) it st0 st1 ins st2 r2 (now2 : Q),
      scrollToId (props r1) = Some k ->
      normalizedItems r1 !! k = Some it ->
      truthyId (Some k) = true ->
      listRef st0 = true ->
      ToBoolean (animationStartTime (animationData st0)) = false ->
      Num.strict_eq (scrollOffsetFinal (animationData st0)) (offsetTop it) = false ->
      0 < now1 ->
      scrollToEffect r1 now1 st0 = Some (tt, st1) ->
      run ins st1 = Some (tt, st2) ->
      noCompletion ins st1 ->
      rafQueue st1 = rafQueue st0 ++ [r1] /\
      animationStartTime (animationData st1) = Some (Fin now1) /\
      scrollToEffect r2 now2 st2 = Some (tt, st2)).
Proof.
  split; [| split].
  - intros r now k it st Hk Hit Hguard.
    rewrite (scrollToEffect_found r now k it st Hk Hit).
    destruct (truthyId (Some k) && listRef st); [| reflexivity].
    apply startScrollAnimation_blocked, Hguard.
  - intros ins st Hc Hrun.
    pose proof (run_oneAnimation ins _ st Hc initialInstance_oneAnimation Hrun) as Hinv.
    split; [exact Hinv |]. unfold oneAnimation in Hinv. rewrite Hinv.
    destruct (ToBoolean _); lia.
  - intros r1 now1 k it st0 st1 ins st2 r2 now2 Hk Hit Htr Hl Hb He Hnow Hstart Hrun Hnc.
    rewrite (scrollToEffect_found r1 now1 k it st0 Hk Hit), Htr, Hl in Hstart.
    cbn [andb] in Hstart.
    rewrite startScrollAnimation_starts in Hstart by assumption.
    injection Hstart as <-. cbn [rafQueue animationData animationStartTime].
    split; [reflexivity |]. split; [reflexivity |].
    apply scrollToEffect_in_flight.
    eapply run_in_flight; [| exact Hnc | exact Hrun].
    apply (ToBoolean_clock now1 Hnow).
Qed.

Lemma onScrollCB_total r (d : ScrollDirection) (x : num) (b : bool) st :
  exists st', onScrollCB r d x b st = Some (tt, st').
Proof.
  destruct st as [a top l q tr]. run_monad.
  destruct b, (onScroll (props r)); cbn [negb]; run_monad; eexists; reflexivity.
Qed.

Lemma strict_eq_zero (a b : num) :
  a = Fin 0 -> Num.eq b (Fin 0) -> Num.strict_eq a b = true.
Proof.
  intros -> H. destruct b as [y | | |]; simpl in H; try contradiction.
  simpl. apply Qeq_bool_iff. symmetry. exact H.
Qed.

Lemma step_neverAnimated i st :
  targetsTop i -> neverAnimated st ->
  exists st', step i st = Some (tt, st') /\ neverAnimated st'.
Proof.
  unfold neverAnimated. intros Ht (Hf & Hq & Hs).
  destruct i as [b | r d x b | r now | now].
  - destruct st as [a top l q tr]. eexists. split; [reflexivity |].
    repeat split; assumption.
  - destruct (onScrollCB_total r d x b st) as [st' Hst'].
    exists st'. split; [exact Hst' |].
    apply onScrollCB_fields in Hst' as (-> & _ & -> & ->). repeat split; assumption.
  - exists st. split; [| repeat split; assumption]. simpl.
    destruct (scrollToEffect_cases r now st) as [E | (k & it & Hk & Hit & _ & E)];
      [exact E |].
    rewrite E. apply startScrollAnimation_blocked. right.
    apply strict_eq_zero; [exact Hf | exact (Ht k it Hk Hit)].
  - exists st. split; [| repeat split; assumption].
    apply step_frame_idle, Hq.
Qed.

Lemma run_neverAnimated ins :
  forall st,
    Forall targetsTop ins -> neverAnimated st ->
    exists st', run ins st = Some (tt, st') /\ neverAnimated st'.
Proof.
  induction ins as [| i ins IH]; intros st Ht Hn.
  - exists st. split; [reflexivity | exact Hn].
  - apply Forall_cons in Ht as [Hi Ht].
    destruct (step_neverAnimated i st Hi Hn) as (st1 & Hstep & Hn1).
    destruct (IH st1 Ht Hn1) as (st' & Hrun & Hn').
    exists st'. split; [| exact Hn']. rewrite run_cons, Hstep. exact Hrun.
Qed.

(** C10. A fresh instance records 0 as [scrollOffsetFinal]. As long as every
    request targets an item at offset 0 (or none), the instance never
    animates: each such run succeeds and leaves [scrollOffsetFinal] at 0,
    no frame callback waiting and [scrollTo] never called. In particular a
    request for the first item of a sequence with distinct identifiers
    changes nothing while [scrollOffsetFinal] is 0. *)
Theorem fresh_instance_ignores_top :
  scrollOffsetFinal (animationData (@initialInstance Item)) = Fin 0 /\
  (forall ins,
      Forall targetsTop ins ->
      exists st,
        run ins initialInstance = Some (tt, st) /\
        scrollOffsetFinal (animationData st) = Fin 0 /\
        rafQueue st = [] /\
        scrollTos (trace st) = []) /\
  (forall r (now : Q) (k : string) it st,
      scrollToId (props r) = Some k ->
      normalizedItems r !! k = Some it ->
      scrollOffsetFinal (animationData st) = Fin 0 ->
      Num.eq (offsetTop it) (Fin 0) ->
      scrollToEffect r now st = Some (tt, st)) /\
  (forall (p : Props Item) (h : num) (x : Item) (l : list Item) (now : Q) st,
      items p = x :: l ->
      NoDup (getItemId p <$> items p) ->
      scrollToId p = Some (getItemId p x) ->
      scrollOffsetFinal (animationData st) = Fin 0 ->
      scrollToEffect (render p h) now st = Some (tt, st)).
Proof.
  assert (Hguard : forall r (now : Q) (k : string) it st,
             scrollToId (props r) = Some k ->
             normalizedItems r !! k = Some it ->
             scrollOffsetFinal (animationData st) = Fin 0 ->
             Num.eq (offsetTop it) (Fin 0) ->
             scrollToEffect r now st = Some (tt, st)).
  { intros r now k it st Hk Hit Hf H0.
    rewrite (scrollToEffect_found r now k it st Hk Hit).
    destruct (truthyId (Some k) && listRef st); [| reflexivity].
    apply startScrollAnimation_blocked. right. apply strict_eq_zero; assumption. }
  split; [reflexivity |]. split; [| split].
  - intros ins Ht. apply (run_neverAnimated ins initialInstance Ht).
    repeat split.
  - exact Hguard.
  - intros p h x l now st Hitems Hnd Hk Hf.
    apply (Hguard (render p h) now (getItemId p x)
             (mkEntry x 0 (getItemHeight p x) (Fin 0))); try assumption.
    + simpl. apply (getNormalizedItems_at (getItemId p) (getItemHeight p) (items p) 0 x Hnd).
      rewrite Hitems. reflexivity.
    + simpl. reflexivity.
Qed.

End Guarded.

(** ** The worked instance *)

Lemma exampleItems_NoDup : NoDup (fst <$> exampleItems).
Proof. apply (bool_decide_unpack _). vm_compute. exact I. Qed.

(** The offsets of the five items are 0, 20, 50, 90 and 100. *)
Example exampleItems_offsets :
  (fun k => offsetTop <$> normalizedItems (exampleRender 200) !! k)
    <$> ["a"; "b"; "c"; "d"; "e"]%string
  = [Some (Fin 0); Some (Fin 20); Some (Fin 50); Some (Fin 90); Some (Fin 100)].
Proof. vm_compute. reflexivity. Qed.

(** Content height 125 in a viewport of 60 leaves a maximal offset of 65. *)
Example exampleRender_maxListOffset (d : Q) : maxListOffset (exampleRender d) = Fin 65.
Proof. vm_compute. reflexivity. Qed.

(** Ten items of height 30 in a viewport of 150 leave a maximal offset of 150. *)
Example ten_items_maxOffset :
  getMaxOffset (Fin 150)
    (getNormalizedItems (seq 0 10) (fun n => String (Ascii.ascii_of_nat (48 + n)) "")
       (fun _ => Fin 30))
  = Fin 150.
Proof. vm_compute. reflexivity. Qed.

(** The request for the fourth item with a duration of 200: the frame at the
    start passes the baseline, the frame 200 later passes 65, the completion
    callback is called once and no frame is left waiting. *)
Example example_end_to_end :
  exists st : Instance (string * Q),
    run [Attach true; Effect (exampleRender 200) 1000;
         AnimationFrame 1000; AnimationFrame 1200] initialInstance = Some (tt, st) /\
    Forall2 Num.eq (scrollTos (trace st)) [Fin 0; Fin 65] /\
    completions (trace st) = 1%nat /\
    rafQueue st = [] /\
    animationData st
    = {| scrollOffsetInitial := Fin 90;
         scrollOffsetFinal := Fin 90;
         animationStartTime := None |}.
Proof.
  eexists. split; [vm_compute; reflexivity |].
  split; [| repeat split].
  repeat constructor.
Qed.

(** On the first render the memo is computed from a height of 0, so the
    maximal offset is the whole content height and the request for the
    fourth item ends on 90. *)
Example firstRender_maxListOffset :
  maxListOffset (firstRender (exampleProps "d" 200)) = Fin 125 /\
  Forall2 Num.eq
    (scrollTos (trace (finalOf [Attach true;
                                Effect (firstRender (exampleProps "d" 200)) 1000;
                                AnimationFrame 1000; AnimationFrame 1200]
                         initialInstance)))
    [Fin 0; Fin 90].
Proof. split; [vm_compute; reflexivity |]. vm_compute. repeat constructor. Qed.

Lemma getNormalizedItems_offsets_witness :
  size (getNormalizedItems exampleItems fst (fun x => Fin (snd x))) = 5%nat.
Proof.
  apply (getNormalizedItems_offsets fst (fun x => Fin (snd x)) exampleItems).
  exact exampleItems_NoDup.
Defined.

Lemma getMaxOffset_spec_witness :
  totalContentHeight ({[ "a"%string := exampleEntry ]} : gmap string (Entry unit))
  = Num.add (offsetTop exampleEntry) (height exampleEntry).
Proof.
  apply (getMaxOffset_spec (Fin 0) _ : _ /\ _ /\ _ /\ _ /\ _) with (k := "a"%string).
  - apply lookup_singleton_eq.
  - intros k' e' H Hne. rewrite lookup_singleton_ne in H by congruence. discriminate.
Defined.

Lemma frame_completion_witness :
  exists st' : Instance (string * Q),
    step (AnimationFrame 1200) (exampleInFlight 200) = Some (tt, st') /\
    rafQueue st' = [] /\
    completions (trace st') = 1%nat.
Proof.
  destruct (frame_completion (exampleRender 200) 1200 (exampleInFlight 200)
              eq_refl eq_refl) as (st' & Hstep & Hdone & _).
  destruct (Hdone eq_refl) as (Hq & _ & _ & _ & _ & Hc & _).
  exists st'. split; [exact Hstep |]. split; [exact Hq |]. exact (Hc eq_refl).
Defined.

Lemma scrollToEffect_missing_witness :
  scrollToEffect (exampleRenderFor "z" 200) 1000 exampleAttached
  = Some (tt, exampleAttached).
Proof.
  apply (scrollToEffect_missing (exampleRenderFor "z" 200) 1000 "z" exampleAttached);
    reflexivity.
Defined.

Lemma exampleAfterFrame_reached :
  run [AnimationFrame 1100] (exampleInFlight 200) = Some (tt, exampleAfterFrame).
Proof. vm_compute. reflexivity. Qed.

Lemma scrollTo_guard_witness :
  rafQueue (exampleInFlight 200) = rafQueue exampleAttached ++ [exampleRender 200] /\
  animationStartTime (animationData (exampleInFlight 200)) = Some (Fin 1000) /\
  scrollToEffect (exampleRender 200) 1150 exampleAfterFrame = Some (tt, exampleAfterFrame).
Proof.
  assert (Hnow : 0 < 1000) by (unfold Qlt; simpl; lia).
  assert (Hnc : noCompletion [AnimationFrame 1100] (exampleInFlight 200))
    by (split; [reflexivity | intros; exact I]).
  destruct (@scrollTo_guard (string * Q)) as (_ & _ & H).
  apply (H (exampleRender 200) 1000 "d"%string
           {| item := ("d"%string, 10); index := 3; height := Fin 10; offsetTop := Fin 90 |}
           exampleAttached (exampleInFlight 200) [AnimationFrame 1100]
           exampleAfterFrame (exampleRender 200) 1150);
    try reflexivity; assumption.
Defined.

Lemma fresh_instance_ignores_top_witness :
  exists st : Instance (string * Q),
    run [Attach true; Effect (exampleRenderFor "a" 200) 1000; AnimationFrame 1016]
      initialInstance = Some (tt, st) /\
    scrollOffsetFinal (animationData st) = Fin 0 /\
    rafQueue st = [] /\
    scrollTos (trace st) = [].
Proof.
  destruct (@fresh_instance_ignores_top (string * Q)) as (_ & H & _).
  apply H. repeat constructor.
  intros k it [= <-] Hit. vm_compute in Hit. injection Hit as <-. reflexivity.
Defined.

(** ** Whole runs *)

Section WholeRuns.

Context {Item : Type}.

Implicit Types (r : Render Item) (st : Instance Item) (i : Input Item)
  (ins : list (Input Item)) (it : Entry Item).

(** The scroll callback, written out. *)
Lemma onScrollCB_eq r (d : ScrollDirection) (x : num) (b : bool) st :
  onScrollCB r d x b st
  = Some (tt, {| animationData :=
                   if b then animationData st
                   else {| scrollOffsetInitial := x;
                           scrollOffsetFinal := scrollOffsetFinal (animationData st);
                           animationStartTime := animationStartTime (animationData st) |};
                 scrollTopRef := x;
                 listRef := listRef st;
                 rafQueue := rafQueue st;
                 trace := trace st
                          ++ (if onScroll (props r) then [OnScroll d x b] else []) |}).
Proof.
  destruct st as [[a0 a1 a2] top l q tr]. run_monad.
  destruct b, (onScroll (props r)); cbn [negb]; run_monad;
    rewrite ?app_nil_r; reflexivity.
Qed.

(** The effect, written out: it starts an animation or does nothing. *)
Lemma scrollToEffect_eq r (now : Q) st :
  scrollToEffect r now st
  = Some (tt,
          match scrollToId (props r) ≫= (fun k => normalizedItems r !! k) with
          | Some it => if starts (Effect r now) st then startedInstance r now it st else st
          | None => st
          end).
Proof.
  destruct (scrollToId (props r) ≫= (fun k => normalizedItems r !! k)) as [it |] eqn:Hit;
    [| apply scrollToEffect_absent; exact Hit].
  unfold starts. rewrite Hit.
  destruct (scrollToId (props r)) as [k |] eqn:Hk; [| discriminate]. simpl in Hit.
  rewrite (scrollToEffect_found r now k it st Hk Hit).
  destruct (truthyId (Some k) && listRef st); [| reflexivity]. cbn [andb].
  destruct (ToBoolean (animationStartTime (animationData st))) eqn:Hb.
  - apply startScrollAnimation_blocked. left. exact Hb.
  - destruct (Num.strict_eq (scrollOffsetFinal (animationData st)) (offsetTop it)) eqn:He.
    + apply startScrollAnimation_blocked. right. exact He.
    + apply startScrollAnimation_starts; assumption.
Qed.

Lemma starts_false_eq r (now : Q) st :
  starts (Effect r now) st = false -> scrollToEffect r now st = Some (tt, st).
Proof.
  intros H. rewrite scrollToEffect_eq, H.
  destruct (scrollToId (props r) ≫= _); reflexivity.
Qed.

Lemma starts_true_inv r (now : Q) st :
  starts (Effect r now) st = true ->
  exists it,
    scrollToId (props r) ≫= (fun k => normalizedItems r !! k) = Some it /\
    listRef st = true /\
    ToBoolean (animationStartTime (animationData st)) = false /\
    scrollToEffect r now st = Some (tt, startedInstance r now it st).
Proof.
  intros H. pose proof (scrollToEffect_eq r now st) as E. rewrite H in E.
  unfold starts in H.
  destruct (scrollToId (props r) ≫= _) as [it |]; [| rewrite andb_false_r in H; discriminate].
  apply andb_prop in H as [H1 H2]. apply andb_prop in H1 as [_ Hl].
  apply negb_true_iff, orb_false_elim in H2 as [Hb _].
  exists it. repeat split; assumption.
Qed.

Lemma agree_refl st : agree st st.
Proof. repeat split. Qed.

Lemma agree_trans st1 st2 st3 : agree st1 st2 -> agree st2 st3 -> agree st1 st3.
Proof.
  intros (A1 & A2 & A3 & A4 & A5) (B1 & B2 & B3 & B4 & B5).
  repeat split; congruence.
Qed.

Lemma agree_starts i st1 st2 : agree st1 st2 -> starts i st1 = starts i st2.
Proof.
  intros (A1 & A2 & _). destruct i; try reflexivity. simpl. rewrite A1, A2. reflexivity.
Qed.

(** Instances that agree keep agreeing under every input. *)
Lemma step_agree i st1 st2 st1' :
  agree st1 st2 ->
  step i st1 = Some (tt, st1') ->
  exists st2', step i st2 = Some (tt, st2') /\ agree st1' st2'.
Proof.
  intros Ha Hstep. pose proof Ha as (A1 & A2 & A3 & A4 & A5).
  destruct i as [b | r d x b | r now | now].
  - eexists. split; [reflexivity |]. injection Hstep as <-.
    repeat split; assumption.
  - simpl in Hstep. rewrite onScrollCB_eq in Hstep. injection Hstep as <-.
    eexists. split; [apply onScrollCB_eq |].
    repeat split; cbn [animationData listRef rafQueue trace]; try assumption.
    + rewrite A1. reflexivity.
    + rewrite !scrollTos_app, A4. reflexivity.
    + rewrite !completions_app, A5. reflexivity.
  - change (scrollToEffect r now st1 = Some (tt, st1')) in Hstep.
    rewrite scrollToEffect_eq in Hstep.
    eexists. split; [apply scrollToEffect_eq |].
    rewrite <- (agree_starts (Effect r now) st1 st2 Ha).
    destruct (starts (Effect r now) st1);
      destruct (scrollToId (props r) ≫= _) as [it |];
      injection Hstep as <-; try exact Ha.
    unfold startedInstance. repeat split; cbn [animationData listRef rafQueue trace];
      congruence.
  - destruct (rafQueue st1) as [| r q] eqn:Hq.
    + rewrite step_frame_idle in Hstep by exact Hq. injection Hstep as <-.
      exists st2. split; [apply step_frame_idle; congruence | exact Ha].
    + rewrite (step_frame_cases r q now st1 Hq) in Hstep.
      assert (Hq2 : rafQueue st2 = r :: q) by congruence.
      rewrite (step_frame_cases r q now st2 Hq2), <- A1, <- A2.
      destruct (listRef st1); [| discriminate].
      destruct (Num.ltb (ellapsed (animationData st1) now) (scrollDuration (props r)));
        injection Hstep as <-; (eexists; split; [reflexivity |]);
        repeat split; cbn [trace]; rewrite ?scrollTos_app, ?completions_app; congruence.
Qed.

Lemma step_programmatic i st st' :
  programmatic i = true -> step i st = Some (tt, st') -> agree st' st.
Proof.
  intros Hp Hstep. destruct i as [b | r d x [|] | r now | now]; try discriminate.
  simpl in Hstep. rewrite onScrollCB_eq in Hstep. injection Hstep as <-.
  repeat split; cbn [trace].
  - rewrite scrollTos_app. destruct (onScroll (props r)); apply app_nil_r.
  - rewrite completions_app. destruct (onScroll (props r)); simpl; lia.
Qed.

Lemma run_agree ins :
  forall st1 st2 st1',
    agree st1 st2 ->
    run ins st1 = Some (tt, st1') ->
    exists st2', run (withoutProgrammatic ins) st2 = Some (tt, st2') /\ agree st1' st2'.
Proof.
  induction ins as [| i ins IH]; intros st1 st2 st1' Ha Hrun.
  - injection Hrun as <-. exists st2. split; [reflexivity | exact Ha].
  - rewrite run_cons in Hrun.
    destruct (step i st1) as [[[] st1a] |] eqn:Hstep; [| discriminate].
    unfold withoutProgrammatic. cbn [List.filter].
    destruct (programmatic i) eqn:Hp; cbn [negb].
    + apply (IH st1a st2 st1'); [| exact Hrun].
      apply (agree_trans _ st1); [apply (step_programmatic i st1 st1a Hp Hstep) | exact Ha].
    + destruct (step_agree i st1 st2 st1a Ha Hstep) as (st2a & Hstep2 & Ha2).
      destruct (IH st1a st2a st1' Ha2 Hrun) as (st2' & Hrun2 & Ha').
      exists st2'. split; [| exact Ha']. rewrite run_cons, Hstep2. exact Hrun2.
Qed.

(** X1. Scroll reports that answer the component's own [scrollTo] are
    invisible to the animation: a run and the same run without those reports
    end with the same animation record, the same waiting frame callbacks,
    the same offsets handed to [scrollTo] and the same number of completion
    calls. *)
Theorem programmatic_scrolls_invisible ins st st' :
  run ins st = Some (tt, st') ->
  exists st'',
    run (withoutProgrammatic ins) st = Some (tt, st'') /\
    animationData st' = animationData st'' /\
    rafQueue st' = rafQueue st'' /\
    scrollTos (trace st') = scrollTos (trace st'') /\
    completions (trace st') = completions (trace st'').
Proof.
  intros Hrun.
  destruct (run_agree ins st st st' (agree_refl st) Hrun) as (st'' & Hrun' & A1 & _ & A3 & A4 & A5).
  exists st''. repeat split; assumption.
Qed.

(** X2. The effect does nothing when [scrollToId] is [undefined] or the
    empty string, or when no list is attached, whatever the index holds (an
    item whose identifier is the empty string cannot be scrolled to). *)
Theorem scrollToEffect_falsy r (now : Q) st :
  scrollToId (props r) = None
  \/ scrollToId (props r) = Some ""%string
  \/ listRef st = false ->
  scrollToEffect r now st = Some (tt, st).
Proof.
  intros H. apply starts_false_eq. unfold starts.
  destruct H as [-> | [-> | ->]]; try reflexivity.
  rewrite andb_false_r. reflexivity.
Qed.

Lemma step_frozen i st st' r :
  ToBoolean (animationStartTime (animationData st)) = true ->
  rafQueue st = [r] ->
  completes i st = false ->
  step i st = Some (tt, st') ->
  rafQueue st' = [r] /\
  scrollOffsetFinal (animationData st') = scrollOffsetFinal (animationData st) /\
  animationStartTime (animationData st') = animationStartTime (animationData st) /\
  completions (trace st') = completions (trace st).
Proof.
  intros Hb Hq Hc Hstep. destruct i as [b | r' d x b | r' now | now].
  - injection Hstep as <-. repeat split. exact Hq.
  - change (onScrollCB r' d x b st = Some (tt, st')) in Hstep.
    rewrite onScrollCB_eq in Hstep. injection Hstep as <-.
    cbn [rafQueue animationData trace]. rewrite completions_app.
    destruct b, (onScroll (props r')); simpl; repeat split; try assumption; lia.
  - change (scrollToEffect r' now st = Some (tt, st')) in Hstep.
    rewrite scrollToEffect_in_flight in Hstep by exact Hb.
    injection Hstep as <-. repeat split. exact Hq.
  - rewrite (step_frame_cases r [] now st Hq) in Hstep.
    simpl in Hc. rewrite Hq in Hc. apply negb_false_iff in Hc. rewrite Hc in Hstep.
    destruct (listRef st); [| discriminate]. injection Hstep as <-.
    cbn [rafQueue animationData trace]. rewrite completions_app. simpl.
    repeat split. lia.
Qed.

(** X3. While an animation is in flight and no frame has completed it, its
    target, its start time and the render whose frame callback waits (hence
    the duration and maximal offset the frames use) stay as they are,
    whatever scroll reports, effects of other renders and frames arrive, and
    the completion callback is not called. *)
Theorem in_flight_frozen ins :
  forall st st' r,
    ToBoolean (animationStartTime (animationData st)) = true ->
    rafQueue st = [r] ->
    noCompletion ins st ->
    run ins st = Some (tt, st') ->
    rafQueue st' = [r] /\
    scrollOffsetFinal (animationData st') = scrollOffsetFinal (animationData st) /\
    animationStartTime (animationData st') = animationStartTime (animationData st) /\
    completions (trace st') = completions (trace st).
Proof.
  induction ins as [| i ins IH]; intros st st' r Hb Hq Hnc Hrun.
  - injection Hrun as <-. repeat split. exact Hq.
  - rewrite run_cons in Hrun. destruct Hnc as [Hc Hnc].
    destruct (step i st) as [[[] st1] |] eqn:Hstep; [| discriminate].
    destruct (step_frozen i st st1 r Hb Hq Hc Hstep) as (Hq1 & Hf1 & Hs1 & Hc1).
    destruct (IH st1 st' r) as (Hq' & Hf' & Hs' & Hc'); try assumption.
    + rewrite Hs1. exact Hb.
    + apply Hnc. reflexivity.
    + repeat split; congruence.
Qed.

Lemma step_settled (t : num) i st :
  targets t i ->
  scrollOffsetFinal (animationData st) = t ->
  rafQueue st = [] ->
  exists st',
    step i st = Some (tt, st') /\
    scrollOffsetFinal (animationData st') = t /\
    rafQueue st' = [] /\
    scrollTos (trace st') = scrollTos (trace st) /\
    completions (trace st') = completions (trace st).
Proof.
  intros Ht Hf Hq. destruct i as [b | r d x b | r now | now].
  - eexists. split; [reflexivity |]. repeat split; assumption.
  - eexists. split; [apply onScrollCB_eq |].
    cbn [rafQueue animationData trace]. rewrite scrollTos_app, completions_app.
    destruct b, (onScroll (props r)); simpl; rewrite ?app_nil_r;
      repeat split; try assumption; lia.
  - exists st. split; [| repeat split; assumption].
    change (scrollToEffect r now st = Some (tt, st)).
    destruct (scrollToEffect_cases r now st) as [E | (k & it & Hk & Hit & _ & E)];
      [exact E |].
    rewrite E. apply startScrollAnimation_blocked. right. rewrite Hf.
    exact (Ht k it Hk Hit).
  - exists st. split; [apply step_frame_idle, Hq | repeat split; assumption].
Qed.

(** X5. Once the recorded target is [t] and no frame waits (as after a
    completed animation to [t]), requests for items at offset [t] are
    ignored, also after the user has scrolled away: every such run succeeds,
    keeps the target, starts no frame and calls neither [scrollTo] nor the
    completion callback. *)
Theorem repeated_target_ignored (t : num) ins :
  forall st,
    Forall (targets t) ins ->
    scrollOffsetFinal (animationData st) = t ->
    rafQueue st = [] ->
    exists st',
      run ins st = Some (tt, st') /\
      scrollOffsetFinal (animationData st') = t /\
      rafQueue st' = [] /\
      scrollTos (trace st') = scrollTos (trace st) /\
      completions (trace st') = completions (trace st).
Proof.
  induction ins as [| i ins IH]; intros st Ht Hf Hq.
  - exists st. repeat split; assumption.
  - apply Forall_cons in Ht as [Hi Ht].
    destruct (step_settled t i st Hi Hf Hq) as (st1 & Hstep & Hf1 & Hq1 & Hs1 & Hc1).
    destruct (IH st1 Ht Hf1 Hq1) as (st' & Hrun & Hf' & Hq' & Hs' & Hc').
    exists st'. rewrite run_cons, Hstep. repeat split; congruence.
Qed.

(** Frames that see [ellapsed < scrollDuration], one after the other. *)
Lemma run_continuing_frames r (times : list Q) :
  forall st,
    listRef st = true ->
    rafQueue st = [r] ->
    Forall (fun t => Num.ltb (ellapsed (animationData st) t) (scrollDuration (props r)) = true)
      times ->
    exists st',
      run (AnimationFrame <$> times) st = Some (tt, st') /\
      animationData st' = animationData st /\
      listRef st' = true /\
      rafQueue st' = [r] /\
      scrollTos (trace st')
      = scrollTos (trace st) ++ (frameOffset r (animationData st) <$> times) /\
      completions (trace st') = completions (trace st).
Proof.
  induction times as [| t times IH]; intros st Hl Hq Hlt.
  - exists st. repeat split; try assumption. simpl. symmetry. apply app_nil_r.
  - apply Forall_cons in Hlt as [Ht Hlt].
    rewrite fmap_cons, run_cons, (step_frame_cases r [] t st Hq), Hl, Ht.
    destruct (IH {| animationData := animationData st;
                    scrollTopRef := scrollTopRef st;
                    listRef := true;
                    rafQueue := [] ++ [r];
                    trace := trace st ++ [ScrollTo (frameOffset r (animationData st) t)] |}
                eq_refl eq_refl Hlt)
      as (st' & Hrun & Ha & Hl' & Hq' & Hs & Hc).
    exists st'. split; [exact Hrun |]. cbn [animationData trace] in *.
    repeat split; try assumption.
    + rewrite Hs, scrollTos_app, <- app_assoc. reflexivity.
    + rewrite Hc, completions_app. simpl. lia.
Qed.

(** X4. A request that passes the guard, any number of frames that see
    [ellapsed < scrollDuration] and one frame that does not: the run
    succeeds, [scrollTo] receives exactly the frame offsets of those clock
    readings in order, the completion callback is called once (if passed),
    and the instance ends idle with both recorded offsets at the target and
    no frame waiting. *)
Theorem animation_runs_to_completion r (now0 : Q) it (times : list Q) (tn : Q) st :
  scrollToId (props r) ≫= (fun k => normalizedItems r !! k) = Some it ->
  starts (Effect r now0) st = true ->
  rafQueue st = [] ->
  Forall (fun t => Num.ltb (Fin (t - now0)) (scrollDuration (props r)) = true) times ->
  Num.ltb (Fin (tn - now0)) (scrollDuration (props r)) = false ->
  exists st',
    run (Effect r now0 :: (AnimationFrame <$> times) ++ [AnimationFrame tn]) st
    = Some (tt, st') /\
    animationData st'
    = {| scrollOffsetInitial := offsetTop it;
         scrollOffsetFinal := offsetTop it;
         animationStartTime := None |} /\
    rafQueue st' = [] /\
    scrollTos (trace st')
    = scrollTos (trace st)
      ++ (frameOffset r
            {| scrollOffsetInitial := scrollOffsetInitial (animationData st);
               scrollOffsetFinal := offsetTop it;
               animationStartTime := Some (Fin now0) |}
            <$> times ++ [tn]) /\
    completions (trace st')
    = (completions (trace st) + if onScrollToFinished (props r) then 1 else 0)%nat.
Proof.
  intros Hit Hs Hq Hlt Hge.
  destruct (starts_true_inv r now0 st Hs) as (it' & Hit' & Hl & _ & Heff).
  rewrite Hit in Hit'. injection Hit' as <-.
  rewrite run_cons. change (step (Effect r now0) st) with (scrollToEffect r now0 st).
  rewrite Heff, run_app.
  destruct (run_continuing_frames r times (startedInstance r now0 it st))
    as (st1 & Hrun & Ha & Hl1 & Hq1 & Hs1 & Hc1).
  { exact Hl. }
  { cbn [startedInstance rafQueue]. rewrite Hq. reflexivity. }
  { exact Hlt. }
  rewrite Hrun, run_cons, (step_frame_cases r [] tn st1 Hq1), Hl1, Ha.
  cbn [startedInstance animationData].
  change (ellapsed _ tn) with (Fin (tn - now0)). rewrite Hge.
  eexists. split; [reflexivity |].
  cbn [animationData rafQueue trace scrollOffsetFinal].
  repeat split.
  - rewrite scrollTos_app, Hs1, fmap_app, <- app_assoc. cbn [startedInstance trace animationData].
    unfold completionEvents. destruct (onScrollToFinished (props r)); reflexivity.
  - rewrite completions_app, Hc1. unfold completionEvents. cbn [startedInstance trace].
    destruct (onScrollToFinished (props r)); reflexivity.
Qed.

Lemma step_throws i st :
  step i st = None <->
  exists (now : Q) r (q : list (Render Item)),
    i = AnimationFrame now /\ rafQueue st = r :: q /\ listRef st = false.
Proof.
  split.
  - intros H. destruct i as [b | r d x b | r now | now].
    + discriminate.
    + change (onScrollCB r d x b st = None) in H. rewrite onScrollCB_eq in H. discriminate.
    + change (scrollToEffect r now st = None) in H. rewrite scrollToEffect_eq in H.
      discriminate.
    + destruct (rafQueue st) as [| r q] eqn:Hq.
      * rewrite step_frame_idle in H by exact Hq. discriminate.
      * rewrite (step_frame_cases r q now st Hq) in H.
        destruct (listRef st) eqn:Hl.
        -- destruct (Num.ltb _ _); discriminate.
        -- exists now, r, q. repeat split.
  - intros (now & r & q & -> & Hq & Hl).
    rewrite (step_frame_cases r q now st Hq), Hl. reflexivity.
Qed.

Lemma step_attachedWhileWaiting i st st' :
  detaches i = false ->
  attachedWhileWaiting st ->
  step i st = Some (tt, st') ->
  attachedWhileWaiting st'.
Proof.
  unfold attachedWhileWaiting. intros Hd Hinv Hstep.
  destruct i as [b | r d x b | r now | now].
  - destruct b; [| discriminate]. injection Hstep as <-. reflexivity.
  - change (onScrollCB r d x b st = Some (tt, st')) in Hstep.
    rewrite onScrollCB_eq in Hstep. injection Hstep as <-. exact Hinv.
  - change (scrollToEffect r now st = Some (tt, st')) in Hstep.
    destruct (starts (Effect r now) st) eqn:Hs.
    + destruct (starts_true_inv r now st Hs) as (it & _ & Hl & _ & E).
      rewrite E in Hstep. injection Hstep as <-. intros _. exact Hl.
    + rewrite (starts_false_eq r now st Hs) in Hstep. injection Hstep as <-. exact Hinv.
  - destruct (rafQueue st) as [| r q] eqn:Hq.
    + rewrite step_frame_idle in Hstep by exact Hq. injection Hstep as <-.
      rewrite Hq. exact Hinv.
    + rewrite (step_frame_cases r q now st Hq) in Hstep.
      destruct (listRef st); [| discriminate].
      destruct (Num.ltb _ _); injection Hstep as <-; reflexivity.
Qed.

(** X6. The only exception the component raises is the frame callback
    finding no list behind [listRef]: a step throws exactly when a frame
    callback waits and no list is attached. As long as the list is never
    detached, no run from a fresh instance throws; a frame that runs after
    the list was detached in flight does, since nothing cancels it. *)
Theorem only_exception_is_detached_frame :
  (forall i st,
      step i st = None <->
      exists (now : Q) r (q : list (Render Item)),
        i = AnimationFrame now /\ rafQueue st = r :: q /\ listRef st = false) /\
  (forall ins,
      Forall (fun i => detaches i = false) ins ->
      exists st, run ins (@initialInstance Item) = Some (tt, st)) /\
  (forall st r (q : list (Render Item)) (now : Q),
      rafQueue st = r :: q ->
      run [Attach false; AnimationFrame now] st = None).
Proof.
  split; [exact step_throws |]. split.
  - assert (H : forall ins st,
               Forall (fun i => detaches i = false) ins ->
               attachedWhileWaiting st ->
               exists st', run ins st = Some (tt, st')).
    { induction ins as [| i ins IH]; intros st Hd Hinv.
      - exists st. reflexivity.
      - apply Forall_cons in Hd as [Hi Hd]. rewrite run_cons.
        destruct (step i st) as [[[] st1] |] eqn:Hstep.
        + apply (IH st1 Hd). apply (step_attachedWhileWaiting i st st1 Hi Hinv Hstep).
        + apply step_throws in Hstep as (now & r & q & _ & Hq & Hl).
          unfold attachedWhileWaiting in Hinv. rewrite Hq in Hinv.
          rewrite Hinv in Hl by discriminate. discriminate. }
    intros ins Hd. apply (H ins initialInstance Hd). intros Hq. contradiction.
  - intros st r q now Hq. destruct st as [a top l q' tr]. simpl in Hq. subst q'.
    reflexivity.
Qed.

Lemma step_counts i st st' :
  Forall (fun r => onScrollToFinished (props r) = true) (rafQueue st) ->
  notifies i ->
  step i st = Some (tt, st') ->
  Forall (fun r => onScrollToFinished (props r) = true) (rafQueue st') /\
  (completions (trace st') + length (rafQueue st')
   = completions (trace st) + length (rafQueue st) + if starts i st then 1 else 0)%nat /\
  (length (scrollTos (trace st'))
   = length (scrollTos (trace st)) + if runsFrame i st then 1 else 0)%nat.
Proof.
  intros Hflag Hn Hstep. destruct i as [b | r d x b | r now | now].
  - injection Hstep as <-. simpl. repeat split; [exact Hflag | lia | lia].
  - change (onScrollCB r d x b st = Some (tt, st')) in Hstep.
    rewrite onScrollCB_eq in Hstep. injection Hstep as <-.
    cbn [rafQueue trace starts runsFrame]. rewrite completions_app, scrollTos_app, List.length_app.
    destruct (onScroll (props r)); simpl; repeat split; try exact Hflag; lia.
  - change (scrollToEffect r now st = Some (tt, st')) in Hstep.
    cbn [runsFrame]. destruct (starts (Effect r now) st) eqn:Hs.
    + destruct (starts_true_inv r now st Hs) as (it & _ & _ & _ & E).
      rewrite E in Hstep. injection Hstep as <-.
      cbn [startedInstance rafQueue trace]. rewrite List.length_app. simpl.
      repeat split; try lia.
      apply Forall_app. split; [exact Hflag |]. constructor; [exact Hn | constructor].
    + rewrite (starts_false_eq r now st Hs) in Hstep. injection Hstep as <-.
      repeat split; [exact Hflag | lia | lia].
  - cbn [starts runsFrame]. destruct (rafQueue st) as [| r q] eqn:Hq.
    + rewrite step_frame_idle in Hstep by exact Hq. injection Hstep as <-.
      rewrite Hq. repeat split; [constructor | simpl; lia | lia].
    + rewrite (step_frame_cases r q now st Hq) in Hstep.
      apply Forall_cons in Hflag as [Hr Hflag].
      destruct (listRef st); [| discriminate].
      destruct (Num.ltb _ _); injection Hstep as <-; cbn [rafQueue trace];
        rewrite completions_app, scrollTos_app, !List.length_app;
        unfold completionEvents; rewrite ?Hr; simpl; repeat split; try lia.
      * apply Forall_app. split; [exact Hflag |]. constructor; [exact Hr | constructor].
      * exact Hflag.
Qed.

Lemma stepAlways_counts i st :
  Forall (fun r => onScrollToFinished (props r) = true) (rafQueue st) ->
  notifies i ->
  Forall (fun r => onScrollToFinished (props r) = true) (rafQueue (stepAlways i st)) /\
  (completions (trace (stepAlways i st)) + length (rafQueue (stepAlways i st))
   + (if throwsAt i st then 1 else 0)
   = completions (trace st) + length (rafQueue st) + if starts i st then 1 else 0)%nat /\
  (length (scrollTos (trace (stepAlways i st))) + (if throwsAt i st then 1 else 0)
   = length (scrollTos (trace st)) + if runsFrame i st then 1 else 0)%nat.
Proof.
  intros Hflag Hn. unfold stepAlways, throwsAt.
  destruct (step i st) as [[[] st'] |] eqn:Hstep.
  - destruct (step_counts i st st' Hflag Hn Hstep) as (Hflag' & Hc & Hs).
    split; [exact Hflag' |]. split; lia.
  - apply step_throws in Hstep as (now & r & q & -> & Hq & _).
    cbn [rafQueue trace starts runsFrame]. rewrite Hq in *. cbn [tail length].
    apply Forall_cons in Hflag as [_ Hflag].
    split; [exact Hflag |]. split; lia.
Qed.

Lemma runAlways_counts ins :
  forall st,
    Forall (fun r => onScrollToFinished (props r) = true) (rafQueue st) ->
    Forall notifies ins ->
    (completions (trace (runAlways ins st)) + length (rafQueue (runAlways ins st))
     + countAlways throwsAt ins st
     = completions (trace st) + length (rafQueue st) + countAlways starts ins st)%nat /\
    (length (scrollTos (trace (runAlways ins st))) + countAlways throwsAt ins st
     = length (scrollTos (trace st)) + countAlways runsFrame ins st)%nat.
Proof.
  induction ins as [| i ins IH]; intros st Hflag Hn.
  - simpl. lia.
  - apply Forall_cons in Hn as [Hi Hn].
    destruct (stepAlways_counts i st Hflag Hi) as (Hflag1 & Hc1 & Hs1).
    destruct (IH (stepAlways i st) Hflag1 Hn) as [Hc Hs].
    cbn [runAlways countAlways]. lia.
Qed.

(** X7. When every render passes an [onScrollToFinished] callback, every
    animation started is accounted for exactly once: after any inputs to a
    fresh instance, with the browser going on after a frame callback that
    throws, the number of requests that passed the guard equals the number
    of completion calls plus the number of frame callbacks still waiting
    plus the number of frame callbacks that threw. [scrollTo] has been
    called once per frame callback run that did not throw. *)
Theorem completions_match_starts ins :
  Forall notifies ins ->
  (completions (trace (runAlways ins (@initialInstance Item)))
   + length (rafQueue (runAlways ins (@initialInstance Item)))
   + countAlways throwsAt ins initialInstance
   = countAlways starts ins initialInstance)%nat /\
  (length (scrollTos (trace (runAlways ins (@initialInstance Item))))
   + countAlways throwsAt ins initialInstance
   = countAlways runsFrame ins initialInstance)%nat.
Proof.
  intros Hn.
  assert (Hq : Forall (fun r => onScrollToFinished (props r) = true)
                 (rafQueue (@initialInstance Item))) by constructor.
  destruct (runAlways_counts ins initialInstance Hq Hn) as [Hc Hs].
  simpl in Hc, Hs. split; [exact Hc | exact Hs].
Qed.

Lemma minQ_mono_r (a b b' : Q) : b <= b' -> minQ a b <= minQ a b'.
Proof.
  intros H.
  destruct (minQ_spec a b) as [[H1 ->] | [H1 ->]];
    destruct (minQ_spec a b') as [[H2 ->] | [H2 ->]]; lra.
Qed.

Lemma progress_mono (e1 e2 d : Q) :
  0 < d -> e1 <= e2 -> minQ 1 (e1 / d) <= minQ 1 (e2 / d).
Proof.
  intros Hd He. apply minQ_mono_r. unfold Qdiv.
  apply Qmult_le_compat_r; [exact He |].
  apply Qlt_le_weak, Qinv_lt_0_compat, Hd.
Qed.

(** X8. Without a change of the animation record in between, later frames
    never move backwards: for a positive duration and finite data the
    offsets handed to [scrollTo] at clock readings [t1 <= t2] after the
    start are non-decreasing and not below the clamped baseline when the
    target is not below the baseline, non-increasing and not above the
    clamped baseline when it is not above. The easing is the one the
    specification gives. *)
Theorem frame_offsets_monotone r (a : AnimationData) (t1 t2 i f s d m : Q) :
  scrollOffsetInitial a = Fin i ->
  scrollOffsetFinal a = Fin f ->
  animationStartTime a = Some (Fin s) ->
  scrollDuration (props r) = Fin d ->
  maxListOffset r = Fin m ->
  0 < d -> s <= t1 -> t1 <= t2 ->
  (i <= f ->
     Num.leb (Num.Math_min (Fin m) (Fin i)) (frameOffset r a t1) = true /\
     Num.leb (frameOffset r a t1) (frameOffset r a t2) = true) /\
  (f <= i ->
     Num.leb (frameOffset r a t2) (frameOffset r a t1) = true /\
     Num.leb (frameOffset r a t1) (Num.Math_min (Fin m) (Fin i)) = true).
Proof.
  intros Hi Hf Hs Hd Hm Hd0 Hs1 H12.
  pose proof (Qeq_bool_pos d Hd0) as Hdz.
  rewrite !(frameOffset_finite r a _ i f s d Hi Hf Hs Hd Hdz), Hm, !Math_min_Fin.
  assert (He1 : 0 <= t1 - s) by lra.
  assert (He2 : 0 <= t2 - s) by lra.
  destruct (progress_bounds (t1 - s) d Hd0 He1) as [Hp1 Hp1'].
  destruct (progress_bounds (t2 - s) d Hd0 He2) as [Hp2 Hp2'].
  assert (Hp : minQ 1 ((t1 - s) / d) <= minQ 1 ((t2 - s) / d))
    by (apply progress_mono; [exact Hd0 | lra]).
  pose proof (easeQ_mono _ _ Hp1 Hp Hp2') as HE.
  destruct (easeQ_range _ Hp1 Hp1') as [HE1 _].
  destruct (easeQ_range _ Hp2 Hp2') as [_ HE2].
  set (E1 := easeQ (minQ 1 ((t1 - s) / d))) in *.
  set (E2 := easeQ (minQ 1 ((t2 - s) / d))) in *.
  split; intros Hif; repeat split; apply leb_Fin, minQ_mono_r; nra.
Qed.

End WholeRuns.

(** ** The story helpers *)

Lemma Story_counter_below (i : nat) (q : Q) :
  Qltb (inject_Z (Z.of_nat i)) q = true <-> (i < Story.iterations q)%nat.
Proof.
  unfold Story.iterations. rewrite Qltb_true. split.
  - intros H. pose proof (Qle_ceiling q) as Hc.
    assert (Hz : inject_Z (Z.of_nat i) < inject_Z (Qceiling q)) by lra.
    rewrite <- Zlt_Qlt in Hz. lia.
  - intros H. pose proof (Qceiling_lt q) as Hc.
    assert (Hz : (Z.of_nat i <= Qceiling q - 1)%Z) by lia.
    rewrite Zle_Qle in Hz. lra.
Qed.

Lemma Story_loop_finite (h w : num) (q : Q) (k : nat) :
  forall (fuel i : nat) (items : list Story.Item),
    (i + k = Story.iterations q)%nat ->
    (k <= fuel)%nat ->
    Story.loop fuel h w (Fin q) i items
    = Some (items ++ (Story.newItem h w <$> seq i k)).
Proof.
  induction k as [| k IH]; intros fuel i items Hik Hfuel.
  - assert (Hc : Qltb (inject_Z (Z.of_nat i)) q = false).
    { apply not_true_iff_false. rewrite Story_counter_below. lia. }
    destruct fuel; simpl; rewrite Hc, app_nil_r; reflexivity.
  - assert (Hc : Qltb (inject_Z (Z.of_nat i)) q = true)
      by (apply Story_counter_below; lia).
    destruct fuel as [| fuel]; [lia |].
    cbn [Story.loop Num.ltb]. rewrite Hc.
    rewrite (IH fuel (S i)); [| lia | lia].
    rewrite <- app_assoc. reflexivity.
Qed.

(** X9. For a finite [itemsCount] and enough fuel, [generateItems] returns
    [ceil(itemsCount)] items (none for a count of 0 or below); the item at
    position [i] has value ["Item i"], identifier [i] in decimal and the
    given height and width, 30 and 100 when these are [undefined]; the
    identifiers are pairwise distinct. *)
Theorem generateItems_finite (fuel : nat) (height width : option num) (q : Q) :
  (Story.iterations q <= fuel)%nat ->
  exists l : list Story.Item,
    Story.generateItems fuel height width (Fin q) = Some l /\
    length l = Story.iterations q /\
    (forall i : nat,
        (i < Story.iterations q)%nat ->
        l !! i = Some {| Story.value := "Item " +:+ pretty i;
                         Story.height := default (Fin 30) height;
                         Story.width := default (Fin 100) width;
                         Story.id := pretty i |}) /\
    NoDup (Story.id <$> l).
Proof.
  intros Hfuel. eexists. split.
  - unfold Story.generateItems.
    apply (Story_loop_finite _ _ q (Story.iterations q)); [reflexivity | exact Hfuel].
  - cbn [app]. split; [| split].
    + rewrite length_fmap, length_seq. reflexivity.
    + intros i Hi. rewrite list_lookup_fmap, lookup_seq_lt by exact Hi. reflexivity.
    + rewrite <- list_fmap_compose.
      assert (Hinj : Inj (=) (=)
                (Story.id ∘ Story.newItem (default (Fin 30) height)
                              (default (Fin 100) width))).
      { intros i j Hij. apply (inj pretty). exact Hij. }
      apply (NoDup_fmap_2 _), NoDup_seq.
Qed.

(** X10. [generateItems] returns no item when [itemsCount] is [NaN] or
    [-Infinity], and never leaves its loop when [itemsCount] is [Infinity]:
    no amount of fuel gives a result. *)
Theorem generateItems_special (fuel : nat) (height width : option num) :
  Story.generateItems fuel height width NaN = Some [] /\
  Story.generateItems fuel height width NInf = Some [] /\
  Story.generateItems fuel height width PInf = None.
Proof.
  split; [destruct fuel; reflexivity |]. split; [destruct fuel; reflexivity |].
  unfold Story.generateItems. generalize 0%nat, (@nil Story.Item).
  induction fuel as [| fuel IH]; intros i items; [reflexivity |]. apply IH.
Qed.

(** ** The worked instance, continued *)

Lemma programmatic_scrolls_invisible_witness :
  exists st' st'' : Instance (string * Q),
    run [Attach true; Effect (exampleRender 200) 1000; AnimationFrame 1100;
         Scroll (exampleRender 200) forward (Fin 45) true; AnimationFrame 1200]
      initialInstance = Some (tt, st') /\
    run [Attach true; Effect (exampleRender 200) 1000; AnimationFrame 1100;
         AnimationFrame 1200] initialInstance = Some (tt, st'') /\
    scrollTos (trace st') = scrollTos (trace st'').
Proof.
  set (ins := [Attach true; Effect (exampleRender 200) 1000; AnimationFrame 1100;
               Scroll (exampleRender 200) forward (Fin 45) true; AnimationFrame 1200]).
  assert (Hrun : run ins initialInstance = Some (tt, finalOf ins initialInstance))
    by (vm_compute; reflexivity).
  destruct (programmatic_scrolls_invisible ins initialInstance _ Hrun)
    as (st'' & Hrun' & _ & _ & Hs & _).
  exists (finalOf ins initialInstance), st''.
  split; [exact Hrun |]. split; [exact Hrun' | exact Hs].
Defined.

Lemma scrollToEffect_falsy_witness :
  scrollToEffect (exampleRenderFor "" 200) 1000 exampleAttached
  = Some (tt, exampleAttached).
Proof.
  apply (scrollToEffect_falsy (exampleRenderFor "" 200) 1000 exampleAttached).
  right. left. reflexivity.
Defined.

Lemma in_flight_frozen_witness :
  rafQueue
    (finalOf [Scroll (exampleRender 200) forward (Fin 10) false;
              Effect (exampleRenderFor "e" 50) 1050;
              AnimationFrame 1100] (exampleInFlight 200))
  = [exampleRender 200].
Proof.
  apply (in_flight_frozen
           [Scroll (exampleRender 200) forward (Fin 10) false;
            Effect (exampleRenderFor "e" 50) 1050;
            AnimationFrame 1100]
           (exampleInFlight 200) _ (exampleRender 200) eq_refl eq_refl).
  - repeat (split; [reflexivity | intros ? H; vm_compute in H; injection H as <-]).
    exact I.
  - vm_compute. reflexivity.
Defined.

Lemma animation_runs_to_completion_witness :
  exists st' : Instance (string * Q),
    run (Effect (exampleRender 200) 1000
         :: (AnimationFrame <$> [1000; 1100]) ++ [AnimationFrame 1200]) exampleAttached
    = Some (tt, st') /\
    rafQueue st' = [] /\
    completions (trace st') = 1%nat.
Proof.
  destruct (animation_runs_to_completion (exampleRender 200) 1000
              {| item := ("d"%string, 10); index := 3; height := Fin 10;
                 offsetTop := Fin 90 |}
              [1000; 1100] 1200 exampleAttached)
    as (st' & Hrun & _ & Hq & _ & Hc); try reflexivity.
  - repeat constructor.
  - exists st'. split; [exact Hrun |]. split; [exact Hq | exact Hc].
Defined.

Lemma repeated_target_ignored_witness :
  exists st' : Instance (string * Q),
    run [Scroll (exampleRender 200) backward (Fin 0) false;
         Effect (exampleRender 200) 2000; AnimationFrame 2016]
      (finalOf [AnimationFrame 1200] (exampleInFlight 200)) = Some (tt, st') /\
    rafQueue st' = [] /\
    scrollTos (trace st') = [Fin 65].
Proof.
  destruct (repeated_target_ignored (Fin 90)
              [Scroll (exampleRender 200) backward (Fin 0) false;
               Effect (exampleRender 200) 2000; AnimationFrame 2016]
              (finalOf [AnimationFrame 1200] (exampleInFlight 200)))
    as (st' & Hrun & _ & Hq & Hs & _); try reflexivity.
  - repeat constructor.
    intros k it [= <-] Hit. vm_compute in Hit. injection Hit as <-. reflexivity.
  - exists st'. split; [exact Hrun |]. split; [exact Hq | exact Hs].
Defined.

Lemma only_exception_is_detached_frame_witness :
  exists st : Instance (string * Q),
    run [Attach true; Effect (exampleRender 200) 1000; AnimationFrame 1100]
      initialInstance = Some (tt, st).
Proof.
  destruct (@only_exception_is_detached_frame (string * Q)) as (_ & H & _).
  apply H. repeat constructor.
Defined.

Lemma completions_match_starts_witness :
  (completions
     (trace (runAlways [Attach true; Effect (exampleRender 200) 1000; Attach false;
                        AnimationFrame 1100] initialInstance))
   + length
       (rafQueue (runAlways [Attach true; Effect (exampleRender 200) 1000; Attach false;
                             AnimationFrame 1100] initialInstance))
   + 1
   = 1)%nat.
Proof.
  apply (completions_match_starts
           [Attach true; Effect (exampleRender 200) 1000; Attach false;
            AnimationFrame 1100]).
  repeat constructor.
Defined.

Lemma frame_offsets_monotone_witness :
  Num.leb (frameOffset (exampleRender 200) (animationData (exampleInFlight 200)) 1050)
    (frameOffset (exampleRender 200) (animationData (exampleInFlight 200)) 1150)
  = true.
Proof.
  assert (Hd : 0 < 200) by (unfold Qlt; simpl; lia).
  assert (Hs : 1000 <= 1050) by (unfold Qle; simpl; lia).
  assert (Ht : 1050 <= 1150) by (unfold Qle; simpl; lia).
  assert (Hif : 0 <= 90) by (unfold Qle; simpl; lia).
  destruct (frame_offsets_monotone (exampleRender 200)
              (animationData (exampleInFlight 200)) 1050 1150 0 90 1000 200 65
              eq_refl eq_refl eq_refl eq_refl eq_refl Hd Hs Ht) as [Hup _].
  exact (proj2 (Hup Hif)).
Defined.

Lemma generateItems_finite_witness :
  exists l : list Story.Item,
    Story.generateItems 5 None (Some (Fin 80)) (Fin (5 # 2)) = Some l /\
    length l = 3%nat.
Proof.
  destruct (generateItems_finite 5 None (Some (Fin 80)) (5 # 2))
    as (l & Hl & Hlen & _).
  - vm_compute. lia.
  - exists l. split; [exact Hl | exact Hlen].
Defined.
